(** * ToolRadar scan: discovery, scoring, classification and catalog merge

    A shallow embedding of [scripts/toolradar_scan.py].

    Conventions of the embedding.
    - Python [str] values are Rocq [string]s.  The embedding covers ASCII
      text: [lower] folds the letters A-Z and leaves every other character
      alone, and [is_space] is Python's whitespace test on the ASCII range.
    - Python [int] is [Z]; the [float] [age_years] is the rational it
      denotes ([Q]), its only use being the comparison with 5.
    - A record of the catalog is a [ToolRecord]; a key that a JSON object may
      lack is an [option] field.
    - A [dict] whose iteration order matters (the merge index) is an
      association list in insertion order; the score dictionary is a [gmap],
      the [seen] set a [gset].
    - Exceptions are the [Raise] branch of [result]; the search provider,
      the link prober, the clock and the document store are explicit
      parameters or explicit state. *)

From Stdlib Require Import ZArith QArith Lia Bool List Ascii String.
From Stdlib Require Import Sorting.Sorted Sorting.Permutation.
From Stdlib Require Import Numbers.DecimalString.
From stdpp Require Import base gmap sets list strings.

Import ListNotations.
Local Open Scope string_scope.
Local Open Scope list_scope.

(** ** Text primitives *)

Module Text.

(** [str.lower()] on one ASCII character. *)
Definition lower_ascii (c : ascii) : ascii :=
  let n := nat_of_ascii c in
  if ((65 <=? n) && (n <=? 90))%nat then ascii_of_nat (n + 32) else c.

(** [s.lower()] *)
Fixpoint lower (s : string) : string :=
  match s with
  | EmptyString => EmptyString
  | String c s' => String (lower_ascii c) (lower s')
  end.

(** Whitespace as [str.strip()] and the pattern [\s] see it (ASCII range):
    TAB, LF, VT, FF, CR, the separators 0x1c-0x1f, and the space. *)
Definition is_space (c : ascii) : bool :=
  let n := nat_of_ascii c in
  (((9 <=? n) && (n <=? 13)) || ((28 <=? n) && (n <=? 32)))%nat.

Fixpoint lstrip (s : string) : string :=
  match s with
  | EmptyString => EmptyString
  | String c s' => if is_space c then lstrip s' else s
  end.

(** Removes the trailing whitespace: a character is dropped when it is a
    space and everything after it has been dropped. *)
Fixpoint rstrip (s : string) : string :=
  match s with
  | EmptyString => EmptyString
  | String c s' =>
      match rstrip s' with
      | EmptyString => if is_space c then EmptyString else String c EmptyString
      | r => String c r
      end
  end.

(** [s.strip()] *)
Definition strip (s : string) : string := rstrip (lstrip s).

(** [re.sub(r"\s+", " ", s)]: every maximal run of whitespace becomes one
    space.  [in_run] tells that the previous character was whitespace. *)
Fixpoint collapse_ws (in_run : bool) (s : string) : string :=
  match s with
  | EmptyString => EmptyString
  | String c s' =>
      if is_space c
      then (if in_run then collapse_ws true s'
            else String " "%char (collapse_ws true s'))
      else String c (collapse_ws false s')
  end.

(** [normalize_name(name)] *)
Definition normalize_name (name : string) : string :=
  collapse_ws false (lower (strip name)).

(** [k in t] for two strings. *)
Fixpoint contains (k t : string) : bool :=
  String.prefix k t ||
  match t with
  | EmptyString => false
  | String _ t' => contains k t'
  end.

(** [any(k in t for k in keys)] *)
Definition any_in (keys : list string) (t : string) : bool :=
  existsb (fun k => contains k t) keys.

(** [sum(1 for k in keys if k in t)] *)
Definition count_hits (keys : list string) (t : string) : Z :=
  Z.of_nat (List.length (List.filter (fun k => contains k t) keys)).

(** Truthiness of a string: [bool(s)]. *)
Definition truthy (s : string) : bool :=
  match s with EmptyString => false | _ => true end.

(** [x or d] where [x] is a string-valued [dict.get] result ([None] when
    the key is absent or null). *)
Definition str_or (x : option string) (d : string) : string :=
  match x with
  | Some s => if truthy s then s else d
  | None => d
  end.

End Text.
Export Text.

(** ** Configuration tables *)

Definition PHASE_KEYWORDS : list (string * list string) :=
  [ ("Stakeholder Needs / System Requirements",
       ["requirements"; "alm"; "traceability"; "reqif"]);
    ("Architektur/Design",
       ["mbse"; "sysml"; "model-based"; "architecture"; "simulation"]);
    ("Implementierung",
       ["static analysis"; "linter"; "code generation"; "codegen"; "compiler"; "ide"]);
    ("Integration & Test (Komponenten)",
       ["unit test"; "ci"; "cd"; "pipeline"; "coverage"; "testing"]);
    ("System Integration & Validierung",
       ["hil"; "sil"; "simulation"; "gazebo"; "isaac"; "validation"]);
    ("Release / Operations",
       ["observability"; "monitoring"; "prometheus"; "grafana"; "deployment"]);
    ("Safety & Security",
       ["iso 26262"; "iec 62304"; "safety"; "security"; "vulnerability"; "sast"]);
    ("Data/AI Lifecycle",
       ["mlops"; "model registry"; "drift"; "training"; "inference"; "feature store"]);
    ("Documentation & Audit",
       ["doxygen"; "sphinx"; "audit"; "traceability"; "documentation"]) ].

Definition EMBEDDED_HINTS : list string :=
  ["embedded"; "mcu"; "rtos"; "zephyr"; "freertos"; "arm"; "stm32"; "bare-metal"; "firmware"].
Definition INTEGRATION_HINTS : list string :=
  ["github actions"; "jira"; "gitlab"; "jenkins"; "docker"; "kubernetes"; "ros"; "ros2"; "cmake"].
Definition AUDIT_HINTS : list string :=
  ["trace"; "audit"; "compliance"; "iso"; "iec"; "safety"; "governance"].
Definition AI_HINTS_ASSISTED : list string :=
  ["llm"; "genai"; "copilot"; "agent"; "ai-powered"; "assistant"].
Definition AI_HINTS_CORE : list string :=
  ["training"; "inference"; "mlops"; "model registry"; "drift"; "synthetic data"].

(** ** Text classifier *)

(** The loop of [infer_vmodel_phases]: [phases] accumulates the labels. *)
Fixpoint phases_loop (table : list (string * list string)) (t : string)
    (phases : list string) : list string :=
  match table with
  | [] => phases
  | (phase, keys) :: rest =>
      if any_in keys t then phases_loop rest t (phases ++ [phase])
      else phases_loop rest t phases
  end.

Definition infer_vmodel_phases (text : string) : list string :=
  let t := lower text in
  match phases_loop PHASE_KEYWORDS t [] with
  | [] => ["Data/AI Lifecycle"]
  | phases => phases
  end.

Definition infer_ai_involvement (text : string) : string :=
  let t := lower text in
  if any_in AI_HINTS_CORE t then "core"
  else if any_in AI_HINTS_ASSISTED t then "assisted"
  else "none".

(** ** Dimension scorer *)

Section Scorer.
Local Open Scope Z_scope.

Definition clamp (n lo hi : Z) : Z := Z.max lo (Z.min hi n).

(** [age_years >= 5] on the rational the float denotes. *)
Definition age_ge_5 (age_years : Q) : bool := Qle_bool (5 # 1) age_years.

Definition score_maturity (stars : Z) (age_years : Q) (updated_days : Z) : Z :=
  let s :=
    if stars >=? 5000 then 5
    else if stars >=? 1000 then 4
    else if stars >=? 200 then 3
    else if stars >=? 50 then 2
    else 1 in
  let s := if age_ge_5 age_years then s + 1 else s in
  let s :=
    if updated_days >? 365 then s - 2
    else if updated_days >? 180 then s - 1
    else if updated_days <? 30 then s + 1
    else s in
  clamp s 0 5.

Definition score_community (stars forks open_issues : Z) : Z :=
  let base := 1 in
  let base :=
    if stars >=? 5000 then 5
    else if stars >=? 1000 then 4
    else if stars >=? 200 then 3
    else if stars >=? 50 then 2
    else base in
  let base :=
    if forks >=? 500 then base + 1
    else if forks >=? 100 then base + 0
    else base in
  let base := if open_issues >=? 500 then base - 1 else base in
  clamp base 0 5.

(** The step table shared by the three keyword scorers. *)
Definition hits_to_score (hits : Z) : Z :=
  if hits >=? 4 then 5
  else if hits =? 3 then 4
  else if hits =? 2 then 3
  else if hits =? 1 then 2
  else 1.

Definition score_embedded (text : string) : Z :=
  hits_to_score (count_hits EMBEDDED_HINTS (lower text)).

Definition score_integration (text : string) : Z :=
  hits_to_score (count_hits INTEGRATION_HINTS (lower text)).

Definition score_audit (text : string) : Z :=
  hits_to_score (count_hits AUDIT_HINTS (lower text)).

(** [{"none": 1, "assisted": 3, "core": 5}.get(ai_involvement, 2)] *)
Definition ai_value (ai_involvement : string) : Z :=
  default 2
    ((<["none" := 1]> (<["assisted" := 3]> (<["core" := 5]> (∅ : gmap string Z))))
       !! ai_involvement).

(** The constant the builder stores under ["TCO"]. *)
Definition score_tco : Z := 5.

(** ** Tier classifier *)

Definition classify (scores : gmap string Z) : string :=
  let m := default 0 (scores !! "Maturity") in
  let a := default 0 (scores !! "AIValue") in
  if (m >=? 4) && (a >=? 3) then "Adopt"
  else if (m >=? 3) && (a >=? 3) then "Trial"
  else if m >=? 2 then "Assess"
  else "Hold".

End Scorer.

Example normalize_FOO : normalize_name "FOO " = "foo".
Proof. reflexivity. Qed.
Example normalize_inner : normalize_name ("  A " +:+ String "009"%char "  b ") = "a b".
Proof. reflexivity. Qed.
Example ai_value_core : ai_value "core" = 5%Z.
Proof. vm_compute. reflexivity. Qed.
Example ai_value_other : ai_value "whatever" = 2%Z.
Proof. vm_compute. reflexivity. Qed.
Example phases_scenario :
  infer_vmodel_phases "ACME Robotics Gazebo Simulation"
  = ["Architektur/Design"; "System Integration & Validierung"].
Proof. vm_compute. reflexivity. Qed.

(** ** Catalog records *)

Record RepoSnapshot := {
  repo_full_name : string;
  repo_url : string;
  repo_stars : Z;
  repo_forks : Z;
  repo_open_issues : Z;
  repo_pushed_at : string;
  repo_created_at : string }.

(** One object of the catalog.  [ToolName] and [VendorOrganisation] are
    read with [dict.get]; [None] stands for an absent (or null) key.
    [EvidenceLinks] absent reads as the empty list. *)
Record ToolRecord := {
  ToolName : option string;
  VendorOrganisation : option string;
  ToolType : string;
  PrimaryUse : string;
  VModelPhases : list string;
  AIInvolvement : string;
  Classification : string;
  EvidenceLinks : list string;
  LastVerifiedDate : string;
  UpdateSignal : list string;
  RiskFlags : list string;
  Notes : string;
  Repo : option RepoSnapshot;
  Scores : gmap string Z }.

(** A record that holds nothing but a name (and a note to tell two such
    records apart), as a hand-written catalog may contain. *)
Definition bare_record (name : option string) (note : string) : ToolRecord :=
  {| ToolName := name; VendorOrganisation := None; ToolType := "";
     PrimaryUse := ""; VModelPhases := []; AIInvolvement := "";
     Classification := ""; EvidenceLinks := []; LastVerifiedDate := "";
     UpdateSignal := []; RiskFlags := []; Notes := note; Repo := None;
     Scores := ∅ |}.

(** [t.get("ToolName")] taken as a condition. *)
Definition name_truthy (t : ToolRecord) : bool :=
  match ToolName t with
  | Some s => truthy s
  | None => false
  end.

(** [t.get("ToolName", "")] *)
Definition get_name (t : ToolRecord) : string := default "" (ToolName t).

(** The dedup key of a record. *)
Definition record_key (t : ToolRecord) : string := normalize_name (get_name t).

(** [(x.get("ToolName") or "").lower()], the key both sorts use. *)
Definition sort_key (x : ToolRecord) : string := lower (str_or (ToolName x) "").

(** ** Stable sort by name

    [list.sort(key=...)] is stable and ascending.  [insert_by_name x l]
    puts [x] in front of the first element whose key is not smaller, so a
    record that came first stays first among equal keys. *)

Fixpoint insert_by_name (x : ToolRecord) (l : list ToolRecord) : list ToolRecord :=
  match l with
  | [] => [x]
  | y :: l' =>
      if String.ltb (sort_key y) (sort_key x) then y :: insert_by_name x l'
      else x :: y :: l'
  end.

Fixpoint sort_by_name (l : list ToolRecord) : list ToolRecord :=
  match l with
  | [] => []
  | x :: l' => insert_by_name x (sort_by_name l')
  end.

(** Order of two records by lowercased name. *)
Definition name_le (a b : ToolRecord) : Prop :=
  String.leb (sort_key a) (sort_key b) = true.

(** ** The merge index: a [dict] in insertion order *)

Definition index := list (string * ToolRecord).

(** [k in idx] *)
Definition idx_mem (k : string) (idx : index) : bool :=
  existsb (fun kv => String.eqb (fst kv) k) idx.

(** [idx[k] = v]: an existing key keeps its place and takes the new value,
    a new key goes to the end. *)
Fixpoint idx_set (k : string) (v : ToolRecord) (idx : index) : index :=
  match idx with
  | [] => [(k, v)]
  | (k', v') :: rest =>
      if String.eqb k' k then (k', v) :: rest
      else (k', v') :: idx_set k v rest
  end.

(** [list(idx.values())] *)
Definition idx_values (idx : index) : list ToolRecord := map snd idx.

(** The dict comprehension of [merge_tools], continued from [idx]. *)
Definition index_from (idx : index) (existing : list ToolRecord) : index :=
  fold_left
    (fun idx t => if name_truthy t then idx_set (record_key t) t idx else idx)
    existing idx.

Definition build_index (existing : list ToolRecord) : index :=
  index_from [] existing.

(** The loop over the new batch. *)
Fixpoint merge_loop (new : list ToolRecord) (idx : index) (inserted : Z)
    (inserted_items : list ToolRecord) : index * Z * list ToolRecord :=
  match new with
  | [] => (idx, inserted, inserted_items)
  | c :: rest =>
      let k := record_key c in
      if negb (truthy k) || idx_mem k idx
      then merge_loop rest idx inserted inserted_items
      else merge_loop rest (idx_set k c idx) (inserted + 1)%Z (inserted_items ++ [c])
  end.

Definition merge_tools (existing new : list ToolRecord)
    : list ToolRecord * Z * list ToolRecord :=
  let '(idx, inserted, inserted_items) := merge_loop new (build_index existing) 0%Z [] in
  let merged := sort_by_name (idx_values idx) in
  (merged, inserted, inserted_items).

Definition merged_of (r : list ToolRecord * Z * list ToolRecord) := fst (fst r).
Definition inserted_of (r : list ToolRecord * Z * list ToolRecord) := snd (fst r).
Definition inserted_items_of (r : list ToolRecord * Z * list ToolRecord) := snd r.

Example merge_scenario :
  merge_tools [bare_record (Some "Alpha") "old"]
              [bare_record (Some "Alpha") "new"; bare_record (Some "Beta") "new"]
  = ([bare_record (Some "Alpha") "old"; bare_record (Some "Beta") "new"], 1%Z,
     [bare_record (Some "Beta") "new"]).
Proof. reflexivity. Qed.

(** ** Exceptions *)

(** The outcome of a call that may raise: [Raise msg] carries [str(e)]. *)
Inductive result (A : Type) : Type :=
  | Ok (a : A)
  | Raise (msg : string).
Arguments Ok {A} a.
Arguments Raise {A} msg.

Definition bind {A B : Type} (r : result A) (k : A -> result B) : result B :=
  match r with
  | Ok a => k a
  | Raise e => Raise e
  end.

Notation "'let!' x ':=' r 'in' k" := (bind r (fun x => k))
  (at level 10, x name, r at level 100, k at level 200).

(** [str(n)] for an integer. *)
Definition str_of_Z (n : Z) : string := NilEmpty.string_of_int (Z.to_int n).

(** ** Candidate builder *)

(** One item of the search provider's answer; [None] is an absent or null
    key.  [it_owner_login] is [None] when the item has no owner or the
    owner has no [login]. *)
Record RawItem := {
  it_name : option string;
  it_full_name : option string;
  it_html_url : option string;
  it_homepage : option string;
  it_description : option string;
  it_created_at : option string;
  it_pushed_at : option string;
  it_stargazers_count : option Z;
  it_forks_count : option Z;
  it_open_issues_count : option Z;
  it_owner_login : option string }.

(** What the run reads from the clock: [days_since] and [years_since] of a
    timestamp, today's date and the timestamp of the run. *)
Record Clock := {
  days_since : string -> Z;
  years_since : string -> Q;
  today_iso : string;
  now_utc_iso : string }.

(** [int(x or 0)] *)
Definition int_or_0 (x : option Z) : Z :=
  match x with
  | Some n => n
  | None => 0%Z
  end.

Definition build_queries : list string :=
  [ "embedded rtos tool";
    "embedded static analysis";
    "robotics simulation tool";
    "hil sil framework";
    "mlops tool open source";
    "requirements traceability open source";
    "prometheus exporter embedded";
    "doxygen sphinx documentation tool" ].

Section Builder.

Variable clock : Clock.

(** The body of the inner loop of [scout_github], up to the [append]. *)
Definition build_candidate (q : string) (it : RawItem) : ToolRecord :=
  let name := str_or (it_name it) "Unknown" in
  let full_name := str_or (it_full_name it) name in
  let html_url := str_or (it_html_url it) "" in
  let homepage := str_or (it_homepage it) "" in
  let desc := str_or (it_description it) "" in
  let created := str_or (it_created_at it) "" in
  let pushed := str_or (it_pushed_at it) "" in
  let stars := int_or_0 (it_stargazers_count it) in
  let forks := int_or_0 (it_forks_count it) in
  let open_issues := int_or_0 (it_open_issues_count it) in
  let blob := full_name +:+ " " +:+ desc in
  let phases := infer_vmodel_phases blob in
  let ai := infer_ai_involvement blob in
  let updated_days := if truthy pushed then days_since clock pushed else 99999%Z in
  let age_years := if truthy created then years_since clock created else 0%Q in
  let scores : gmap string Z :=
    <["CommunitySupport" := score_community stars forks open_issues]>
    (<["TCO" := score_tco]>
    (<["AIValue" := ai_value ai]>
    (<["AuditTraceability" := score_audit blob]>
    (<["EmbeddedFit" := score_embedded blob]>
    (<["Integration" := score_integration blob]>
    (<["Maturity" := score_maturity stars age_years updated_days]> ∅)))))) in
  let classification := classify scores in
  let evidence := [html_url; if truthy homepage then homepage else html_url] in
  {| ToolName := Some name;
     VendorOrganisation := Some (default "Open Source" (it_owner_login it));
     ToolType := "Open Source";
     PrimaryUse := if truthy desc then desc
                   else "Open-source tool (discovered via GitHub search)";
     VModelPhases := phases;
     AIInvolvement := ai;
     Classification := classification;
     EvidenceLinks := firstn 2 evidence;
     LastVerifiedDate := today_iso clock;
     UpdateSignal := ["GitHubReleases"];
     RiskFlags := ["Unvalidated (auto-discovered)"];
     Notes := "Discovered via GitHub search query: '" +:+ q +:+ "'. Scores are heuristic.";
     Repo := Some {| repo_full_name := full_name; repo_url := html_url;
                     repo_stars := stars; repo_forks := forks;
                     repo_open_issues := open_issues;
                     repo_pushed_at := pushed; repo_created_at := created |};
     Scores := scores |}.

(** ** Discovery *)

(** The search provider: the answer to [http_get_json] for the query [q],
    already reduced to [data.get("items", [])], or the exception raised. *)
Variable search : string -> result (list RawItem).

(** [len(candidates) >= max_results * 3] *)
Definition cap_reached (candidates : list ToolRecord) (max_results : Z) : bool :=
  (Z.of_nat (List.length candidates) >=? max_results * 3)%Z.

(** The inner loop: the test comes after the [append]. *)
Fixpoint collect_items (q : string) (items : list RawItem)
    (candidates : list ToolRecord) (max_results : Z) : list ToolRecord :=
  match items with
  | [] => candidates
  | it :: rest =>
      let candidates := candidates ++ [build_candidate q it] in
      if cap_reached candidates max_results then candidates
      else collect_items q rest candidates max_results
  end.

(** The outer loop: one search per query, until the cap is reached. *)
Fixpoint collect_queries (queries : list string) (candidates : list ToolRecord)
    (max_results : Z) : result (list ToolRecord) :=
  match queries with
  | [] => Ok candidates
  | q :: rest =>
      let! items := search q in
      let candidates := collect_items q items candidates max_results in
      if cap_reached candidates max_results then Ok candidates
      else collect_queries rest candidates max_results
  end.

(** The dedup loop: [seen] holds the keys met so far, [uniq] the records
    kept; the length test comes after the [append].  Every candidate has
    a [ToolName], so [c["ToolName"]] is its name. *)
Fixpoint dedup_loop (candidates : list ToolRecord) (seen : gset string)
    (uniq : list ToolRecord) (max_results : Z) : list ToolRecord :=
  match candidates with
  | [] => uniq
  | c :: rest =>
      let k := record_key c in
      if decide (k ∈ seen) then dedup_loop rest seen uniq max_results
      else
        let seen := {[ k ]} ∪ seen in
        let uniq := uniq ++ [c] in
        if (Z.of_nat (List.length uniq) >=? max_results)%Z then uniq
        else dedup_loop rest seen uniq max_results
  end.

(** The second stage of [scout_github]: dedup, cut, sort. *)
Definition batch_dedup (candidates : list ToolRecord) (max_results : Z) : list ToolRecord :=
  sort_by_name (dedup_loop candidates ∅ [] max_results).

Definition scout_github (max_results : Z) : result (list ToolRecord) :=
  let! candidates := collect_queries build_queries [] max_results in
  Ok (batch_dedup candidates max_results).

End Builder.

(** ** Documents and the store *)

Inductive Signal :=
  | NEW_TOOL (tool : option string) (vendor : option string) (evidence : list string)
  | ERROR (message : string).

Record BrokenLink := {
  bl_tool : option string;
  bl_link : string;
  bl_info : string }.

Record SignalsDoc := {
  generated_at_utc : string;
  signals : list Signal;
  broken_links : list BrokenLink }.

Record MetaDoc := {
  lastRunUtc : string;
  lastRunCommit : option string;
  toolsCount : Z }.

(** An element of the catalog file as loaded: a JSON object with fields
    of the types the script writes, or some other value, on which the
    comprehension of [merge_tools] raises the exception [err]. *)
Inductive CatalogEntry :=
  | EntryObject (r : ToolRecord)
  | EntryOther (err : string).

(** The catalog file: absent, a JSON value that is no list, a list, or
    text that [json.load] cannot read, on which it raises [err]. *)
Inductive ToolsFile :=
  | FileAbsent
  | FileNotList
  | FileList (entries : list CatalogEntry)
  | FileInvalid (err : string).

Record Store := {
  tools_json : ToolsFile;
  meta_json : option MetaDoc;
  signals_json : option SignalsDoc }.

(** What a run leaves behind. *)
Record Outcome := {
  store : Store;
  exit_code : Z;
  stdout : list string;
  stderr : list string }.

(** What the HEAD request does: a response with a status code, or an
    exception. *)
Inductive ProbeResult :=
  | Responded (code : Z)
  | ProbeRaised (msg : string).

Section Pipeline.

Variable clock : Clock.
Variable search : string -> result (list RawItem).
Variable probe : string -> ProbeResult.
(** [os.getenv("GITHUB_SHA")] *)
Variable sha : option string.

Definition http_head_ok (url : string) : bool * string :=
  match probe url with
  | Responded code => ((200 <=? code)%Z && (code <? 400)%Z, str_of_Z code)
  | ProbeRaised e => (false, e)
  end.

(** The elements of the loaded list as the comprehension of [merge_tools]
    meets them: the first element that is no object raises. *)
Fixpoint records_of (entries : list CatalogEntry) : result (list ToolRecord) :=
  match entries with
  | [] => Ok []
  | EntryObject r :: rest =>
      let! rs := records_of rest in Ok (r :: rs)
  | EntryOther err :: _ => Raise err
  end.

(** [merge_tools] on the list as loaded. *)
Definition merge_loaded (existing : list CatalogEntry) (new : list ToolRecord)
    : result (list ToolRecord * Z * list ToolRecord) :=
  let! recs := records_of existing in
  Ok (merge_tools recs new).

(** The validator loop over [merged[:80]]. *)
Fixpoint validate_links (tools : list ToolRecord) (broken : list BrokenLink)
    : list BrokenLink :=
  match tools with
  | [] => broken
  | t :: rest =>
      match EvidenceLinks t with
      | [] => validate_links rest broken
      | link :: _ =>
          let '(ok, info) := http_head_ok link in
          if ok then validate_links rest broken
          else validate_links rest
                 (broken ++ [{| bl_tool := ToolName t; bl_link := link; bl_info := info |}])
      end
  end.

Definition new_tool_signal (x : ToolRecord) : Signal :=
  NEW_TOOL (ToolName x) (VendorOrganisation x) (firstn 1 (EvidenceLinks x)).

(** The [try] block of [main] up to the first write: discovery, merge and
    validation. *)
Definition run_pipeline (max_results : Z) (existing : list CatalogEntry)
    : result (list ToolRecord * (list ToolRecord * Z * list ToolRecord) * list BrokenLink) :=
  let! discovered := scout_github clock search max_results in
  let! m := merge_loaded existing discovered in
  let broken := validate_links (firstn 80 (merged_of m)) [] in
  Ok (discovered, m, broken).

(** [load_json(TOOLS_JSON, [])] when it returns, then the
    [isinstance(existing, list)] test.  (On a file that cannot be read
    [load_json] raises and [main] ends before [existing] is used.) *)
Definition load_existing (st : Store) : list CatalogEntry :=
  match tools_json st with
  | FileList entries => entries
  | FileAbsent | FileNotList | FileInvalid _ => []
  end.

(** [main] from the point where the catalog file has been read: the
    [try] block and its handler. *)
Definition main_try (max_results : Z) (st : Store) : Outcome :=
  let existing := load_existing st in
  let run_ts := now_utc_iso clock in
  match run_pipeline max_results existing with
  | Ok (discovered, m, broken) =>
      let merged := merged_of m in
      let sigs := map new_tool_signal (firstn 50 (inserted_items_of m)) in
      {| store :=
           {| tools_json := FileList (map EntryObject merged);
              meta_json := Some {| lastRunUtc := run_ts; lastRunCommit := sha;
                                   toolsCount := Z.of_nat (List.length merged) |};
              signals_json := Some {| generated_at_utc := run_ts; signals := sigs;
                                      broken_links := broken |} |};
         exit_code := 0;
         stdout := [ "[OK] discovered=" +:+ str_of_Z (Z.of_nat (List.length discovered))
                     +:+ " inserted=" +:+ str_of_Z (inserted_of m)
                     +:+ " total=" +:+ str_of_Z (Z.of_nat (List.length merged))
                     +:+ " broken_links=" +:+ str_of_Z (Z.of_nat (List.length broken)) ];
         stderr := [] |}
  | Raise e =>
      {| store :=
           {| tools_json := tools_json st;
              meta_json := meta_json st;
              signals_json := Some {| generated_at_utc := run_ts; signals := [ERROR e];
                                      broken_links := [] |} |};
         exit_code := 1;
         stdout := [];
         stderr := [ "[ERROR] " +:+ e ] |}
  end.

(** [main]: [load_json] is called before the [try], so an exception of
    [json.load] is not handled: the run ends with the traceback on the
    error stream and exit status 1, and writes nothing. *)
Definition main (max_results : Z) (st : Store) : Outcome :=
  match tools_json st with
  | FileInvalid err =>
      {| store := st; exit_code := 1; stdout := []; stderr := [err] |}
  | FileAbsent | FileNotList | FileList _ => main_try max_results st
  end.

End Pipeline.

(** A clock and two providers to run the pipeline on. *)
Definition sample_clock : Clock :=
  {| days_since := fun _ => 10%Z; years_since := fun _ => 6%Q;
     today_iso := "2024-01-01"; now_utc_iso := "2024-01-01T00:00:00Z" |}.

Definition sample_item (name url : string) : RawItem :=
  {| it_name := Some name; it_full_name := None; it_html_url := Some url;
     it_homepage := None; it_description := None; it_created_at := None;
     it_pushed_at := None; it_stargazers_count := None; it_forks_count := None;
     it_open_issues_count := None; it_owner_login := None |}.

(** Every query is answered with the one item [zeta]. *)
Definition search_one : string -> result (list RawItem) :=
  fun _ => Ok [sample_item "zeta" "https://example.org/zeta"].

(** Every query raises. *)
Definition search_down : string -> result (list RawItem) :=
  fun _ => Raise "HTTP Error 403: rate limit exceeded".

(** Every link is unreachable. *)
Definition probe_down : string -> ProbeResult :=
  fun _ => ProbeRaised "timed out".

Example str_of_Z_404 : str_of_Z 404 = "404".
Proof. reflexivity. Qed.
Example str_of_Z_0 : str_of_Z 0 = "0".
Proof. reflexivity. Qed.

(** ** Facts about the name order and the stable sort *)

Section SortFacts.

Lemma ltb_false_leb (s1 s2 : string) :
  String.ltb s1 s2 = false -> String.leb s2 s1 = true.
Proof.
  unfold String.ltb, String.leb. rewrite (String.compare_antisym s1 s2).
  destruct (String.compare s2 s1); simpl; congruence.
Qed.

Lemma ltb_true_leb (s1 s2 : string) :
  String.ltb s1 s2 = true -> String.leb s1 s2 = true.
Proof.
  unfold String.ltb, String.leb. destruct (String.compare s1 s2); congruence.
Qed.

Lemma leb_true_ltb (s1 s2 : string) :
  String.leb s1 s2 = true -> String.ltb s2 s1 = false.
Proof.
  unfold String.ltb, String.leb. rewrite (String.compare_antisym s1 s2).
  destruct (String.compare s2 s1); simpl; congruence.
Qed.

Lemma insert_by_name_perm (x : ToolRecord) (l : list ToolRecord) :
  Permutation (x :: l) (insert_by_name x l).
Proof.
  induction l as [|y l IH]; simpl; [reflexivity|].
  destruct (String.ltb (sort_key y) (sort_key x)); [|reflexivity].
  rewrite perm_swap. now apply perm_skip.
Qed.

Lemma sort_by_name_perm (l : list ToolRecord) :
  Permutation l (sort_by_name l).
Proof.
  induction l as [|x l IH]; simpl; [reflexivity|].
  rewrite <- insert_by_name_perm. now apply perm_skip.
Qed.

Lemma sort_by_name_In (l : list ToolRecord) (x : ToolRecord) :
  In x (sort_by_name l) <-> In x l.
Proof.
  split; apply Permutation_in;
    [symmetry|]; apply sort_by_name_perm.
Qed.

Lemma sort_by_name_length (l : list ToolRecord) :
  List.length (sort_by_name l) = List.length l.
Proof. symmetry. apply Permutation_length, sort_by_name_perm. Qed.

Lemma insert_by_name_hd (a x : ToolRecord) (l : list ToolRecord) :
  name_le a x -> HdRel name_le a l -> HdRel name_le a (insert_by_name x l).
Proof.
  intros Hax Hl. destruct l as [|y l]; simpl; [now constructor|].
  destruct (String.ltb (sort_key y) (sort_key x)); constructor; trivial.
  now inversion Hl.
Qed.

Lemma insert_by_name_sorted (x : ToolRecord) (l : list ToolRecord) :
  Sorted name_le l -> Sorted name_le (insert_by_name x l).
Proof.
  induction l as [|y l IH]; simpl; intros Hs.
  - repeat constructor.
  - inversion Hs as [|? ? Hl Hhd]; subst.
    destruct (String.ltb (sort_key y) (sort_key x)) eqn:E.
    + constructor; [now apply IH|].
      apply insert_by_name_hd; [|assumption].
      now apply ltb_true_leb.
    + constructor; [assumption|]. constructor. now apply ltb_false_leb.
Qed.

Lemma sort_by_name_sorted (l : list ToolRecord) :
  Sorted name_le (sort_by_name l).
Proof.
  induction l as [|x l IH]; simpl; [constructor|].
  now apply insert_by_name_sorted.
Qed.

(** Sorting a list that is in order already gives it back. *)
Lemma sort_by_name_id (l : list ToolRecord) :
  Sorted name_le l -> sort_by_name l = l.
Proof.
  induction l as [|x l IH]; simpl; intros Hs; [reflexivity|].
  inversion Hs as [|? ? Hl Hhd]; subst. rewrite (IH Hl).
  destruct l as [|y l]; simpl; [reflexivity|].
  inversion Hhd as [|? ? Hxy]; subst.
  now rewrite (leb_true_ltb _ _ Hxy).
Qed.

End SortFacts.

(** ** Facts about the merge index *)

Section IndexFacts.

Definition idx_keys (idx : index) : list string := map fst idx.

(** Every entry is filed under the key of its record, and no key occurs
    twice. *)
Definition idx_ok (idx : index) : Prop :=
  NoDup (idx_keys idx) /\ Forall (fun kv => fst kv = record_key (snd kv)) idx.

Lemma idx_mem_In (k : string) (idx : index) :
  idx_mem k idx = true <-> In k (idx_keys idx).
Proof.
  unfold idx_mem, idx_keys. rewrite existsb_exists, in_map_iff. split.
  - intros [kv [Hin Heq]]. apply String.eqb_eq in Heq. now exists kv.
  - intros [kv [Heq Hin]]. exists kv. split; [assumption|]. now apply String.eqb_eq.
Qed.

Lemma idx_mem_notin (k : string) (idx : index) :
  idx_mem k idx = false <-> ~ In k (idx_keys idx).
Proof.
  rewrite <- idx_mem_In. destruct (idx_mem k idx); split; congruence.
Qed.

Lemma idx_set_fresh (k : string) (v : ToolRecord) (idx : index) :
  ~ In k (idx_keys idx) -> idx_set k v idx = idx ++ [(k, v)].
Proof.
  induction idx as [|[k' v'] idx IH]; simpl; intros Hn; [reflexivity|].
  destruct (String.eqb k' k) eqn:E.
  - apply String.eqb_eq in E. tauto.
  - rewrite IH; tauto.
Qed.

Lemma idx_set_keys_present (k : string) (v : ToolRecord) (idx : index) :
  In k (idx_keys idx) -> idx_keys (idx_set k v idx) = idx_keys idx.
Proof.
  induction idx as [|[k' v'] idx IH]; simpl; intros Hin; [tauto|].
  destruct (String.eqb k' k) eqn:E; simpl; [reflexivity|].
  apply String.eqb_neq in E. f_equal. apply IH. tauto.
Qed.

Lemma idx_set_keys_In (k k0 : string) (v : ToolRecord) (idx : index) :
  In k0 (idx_keys (idx_set k v idx)) <-> k0 = k \/ In k0 (idx_keys idx).
Proof.
  destruct (idx_mem k idx) eqn:E.
  - apply idx_mem_In in E. rewrite (idx_set_keys_present _ _ _ E).
    split; [tauto|]. intros [->|H]; assumption.
  - apply idx_mem_notin in E. rewrite (idx_set_fresh _ _ _ E).
    unfold idx_keys. rewrite map_app, in_app_iff. simpl. intuition.
Qed.

Lemma idx_set_In (k : string) (v : ToolRecord) (idx : index) :
  In (k, v) (idx_set k v idx).
Proof.
  induction idx as [|[k' v'] idx IH]; simpl; [now left|].
  destruct (String.eqb k' k) eqn:E.
  - apply String.eqb_eq in E. subst. now left.
  - now right.
Qed.

Lemma idx_set_other (k k0 : string) (v v0 : ToolRecord) (idx : index) :
  k0 <> k -> In (k0, v0) idx -> In (k0, v0) (idx_set k v idx).
Proof.
  intros Hne. induction idx as [|[k' v'] idx IH]; simpl; [tauto|].
  intros [Heq|Hin].
  - inversion Heq; subst. apply String.eqb_neq in Hne. rewrite Hne. now left.
  - destruct (String.eqb k' k); [now right|]. right. now apply IH.
Qed.

Lemma idx_set_entries (k : string) (v : ToolRecord) (idx : index) (kv : string * ToolRecord) :
  In kv (idx_set k v idx) -> kv = (k, v) \/ In kv idx.
Proof.
  induction idx as [|[k' v'] idx IH]; simpl.
  - intros [H|[]]. now left.
  - destruct (String.eqb k' k) eqn:E.
    + apply String.eqb_eq in E. subst. simpl. intuition.
    + simpl. intuition.
Qed.

Lemma idx_set_ok (k : string) (v : ToolRecord) (idx : index) :
  k = record_key v -> idx_ok idx -> idx_ok (idx_set k v idx).
Proof.
  intros Hk [Hnd Hall]. split.
  - destruct (idx_mem k idx) eqn:E.
    + apply idx_mem_In in E. now rewrite idx_set_keys_present.
    + apply idx_mem_notin in E. rewrite idx_set_fresh by assumption.
      unfold idx_keys in *. rewrite map_app. simpl.
      apply NoDup_ListNoDup. apply NoDup_ListNoDup in Hnd.
      apply List.NoDup_app; [assumption|repeat constructor; simpl; tauto|].
      intros x Hx [<-|[]]. tauto.
  - apply List.Forall_forall. intros kv Hin.
    apply idx_set_entries in Hin as [->|Hin]; [assumption|].
    now apply (proj1 (List.Forall_forall _ _) Hall).
Qed.

End IndexFacts.

(** ** Facts about [merge_tools] *)

Section MergeFacts.

Lemma index_from_ok (existing : list ToolRecord) (idx : index) :
  idx_ok idx -> idx_ok (index_from idx existing).
Proof.
  revert idx. induction existing as [|t l IH]; simpl; intros idx Hok; [assumption|].
  apply IH. destruct (name_truthy t); [|assumption].
  now apply idx_set_ok.
Qed.

Lemma merge_loop_ok (new : list ToolRecord) (idx : index) (n : Z) (items : list ToolRecord) :
  idx_ok idx -> idx_ok (fst (fst (merge_loop new idx n items))).
Proof.
  revert idx n items. induction new as [|c l IH]; simpl; intros idx n items Hok; [assumption|].
  destruct (negb (truthy (record_key c)) || idx_mem (record_key c) idx).
  - now apply IH.
  - apply IH. now apply idx_set_ok.
Qed.

Lemma idx_ok_values_keys (idx : index) :
  idx_ok idx -> map record_key (idx_values idx) = idx_keys idx.
Proof.
  intros [_ Hall]. unfold idx_values, idx_keys. rewrite map_map.
  apply map_ext_in. intros kv Hin. symmetry.
  now apply (proj1 (List.Forall_forall _ _) Hall).
Qed.

(** The index built from a catalog whose records are all named and have
    distinct keys lists the catalog itself, in its order. *)
Lemma index_from_distinct (existing : list ToolRecord) (idx : index) :
  (forall r, In r existing -> name_truthy r = true) ->
  NoDup (idx_keys idx ++ map record_key existing) ->
  index_from idx existing = idx ++ map (fun r => (record_key r, r)) existing.
Proof.
  revert idx. induction existing as [|t l IH]; simpl; intros idx Hnamed Hnd.
  - now rewrite app_nil_r.
  - rewrite (Hnamed t) by now left.
    assert (Hfresh : ~ In (record_key t) (idx_keys idx)).
    { apply NoDup_ListNoDup in Hnd. apply List.NoDup_remove_2 in Hnd.
      intros Hin. apply Hnd. apply in_or_app. now left. }
    rewrite (idx_set_fresh _ _ _ Hfresh). rewrite IH.
    + now rewrite <- app_assoc.
    + intros r Hr. apply Hnamed. now right.
    + unfold idx_keys in *. rewrite map_app. simpl. rewrite <- app_assoc. exact Hnd.
Qed.

Lemma index_from_keys_In (existing : list ToolRecord) (idx : index) (k : string) :
  In k (idx_keys (index_from idx existing)) <->
  In k (idx_keys idx) \/
  exists t, In t existing /\ name_truthy t = true /\ record_key t = k.
Proof.
  revert idx. induction existing as [|t l IH]; simpl; intros idx.
  - split; [tauto|]. intros [H|[t [[] _]]]. exact H.
  - rewrite IH. destruct (name_truthy t) eqn:E.
    + rewrite idx_set_keys_In. split.
      * intros [[->|H]|[t' [Hin [Ht Hk]]]]; [right; exists t; tauto|tauto|].
        right. exists t'. tauto.
      * intros [H|[t' [[<-|Hin] [Ht Hk]]]]; [tauto|left; left; congruence|].
        right. exists t'. tauto.
    + split.
      * intros [H|[t' [Hin [Ht Hk]]]]; [tauto|]. right. exists t'. tauto.
      * intros [H|[t' [[<-|Hin] [Ht Hk]]]]; [tauto|congruence|].
        right. exists t'. tauto.
Qed.

(** Entries of the index are records of the catalog (or were there
    before), and named ones. *)
Lemma index_from_entries (existing : list ToolRecord) (idx : index) (kv : string * ToolRecord) :
  In kv (index_from idx existing) ->
  In kv idx \/ (In (snd kv) existing /\ name_truthy (snd kv) = true).
Proof.
  revert idx. induction existing as [|t l IH]; simpl; intros idx Hin; [tauto|].
  apply IH in Hin as [Hin|[Hin Hn]]; [|tauto].
  destruct (name_truthy t) eqn:E; [|tauto].
  apply idx_set_entries in Hin as [->|Hin]; simpl; tauto.
Qed.

(** An entry survives the rest of the comprehension when no later named
    record has its key. *)
Lemma index_from_keeps (post : list ToolRecord) (idx : index) (k : string) (e : ToolRecord) :
  (forall t, In t post -> name_truthy t = true -> record_key t <> k) ->
  In (k, e) idx -> In (k, e) (index_from idx post).
Proof.
  revert idx. induction post as [|t l IH]; simpl; intros idx Hpost Hin; [assumption|].
  apply IH; [intros t' Ht'; apply Hpost; now right|].
  destruct (name_truthy t) eqn:E; [|assumption].
  apply idx_set_other; [|assumption].
  intros Heq. apply (Hpost t); auto.
Qed.

Lemma index_from_app (l1 l2 : list ToolRecord) (idx : index) :
  index_from idx (l1 ++ l2) = index_from (index_from idx l1) l2.
Proof. unfold index_from. apply fold_left_app. Qed.

(** A batch whose keys are all in the index already changes nothing. *)
Lemma merge_loop_known (new : list ToolRecord) (idx : index) (n : Z) (items : list ToolRecord) :
  (forall c, In c new -> In (record_key c) (idx_keys idx)) ->
  merge_loop new idx n items = (idx, n, items).
Proof.
  induction new as [|c l IH]; simpl; intros Hall; [reflexivity|].
  assert (Hc : idx_mem (record_key c) idx = true) by (apply idx_mem_In, Hall; now left).
  rewrite Hc, orb_true_r. apply IH. intros c' Hc'. apply Hall. now right.
Qed.

Lemma merge_tools_unfold (existing new : list ToolRecord) :
  merge_tools existing new =
  (sort_by_name (idx_values (fst (fst (merge_loop new (build_index existing) 0%Z [])))),
   snd (fst (merge_loop new (build_index existing) 0%Z [])),
   snd (merge_loop new (build_index existing) 0%Z [])).
Proof.
  unfold merge_tools.
  destruct (merge_loop new (build_index existing) 0%Z []) as [[idx n] items].
  reflexivity.
Qed.

Lemma idx_ok_nil : idx_ok [].
Proof. split; constructor. Qed.

Lemma merge_tools_keys_NoDup (existing new : list ToolRecord) :
  NoDup (map record_key (merged_of (merge_tools existing new))).
Proof.
  rewrite merge_tools_unfold. unfold merged_of. simpl.
  assert (Hok : idx_ok (fst (fst (merge_loop new (build_index existing) 0%Z [])))).
  { apply merge_loop_ok, index_from_ok, idx_ok_nil. }
  apply NoDup_ListNoDup.
  apply (Permutation_NoDup (l := map record_key
           (idx_values (fst (fst (merge_loop new (build_index existing) 0%Z [])))))).
  - apply Permutation_map, sort_by_name_perm.
  - rewrite (idx_ok_values_keys _ Hok). apply NoDup_ListNoDup. apply Hok.
Qed.

End MergeFacts.

(** ** Every record of the index is named *)

Section NamedFacts.

Definition idx_named (idx : index) : Prop :=
  Forall (fun kv => name_truthy (snd kv) = true) idx.

Lemma idx_set_named (k : string) (v : ToolRecord) (idx : index) :
  name_truthy v = true -> idx_named idx -> idx_named (idx_set k v idx).
Proof.
  intros Hv Hall. apply List.Forall_forall. intros kv Hin.
  apply idx_set_entries in Hin as [->|Hin]; [assumption|].
  now apply (proj1 (List.Forall_forall _ _) Hall).
Qed.

Lemma index_from_named (existing : list ToolRecord) (idx : index) :
  idx_named idx -> idx_named (index_from idx existing).
Proof.
  revert idx. induction existing as [|t l IH]; simpl; intros idx Hall; [assumption|].
  apply IH. destruct (name_truthy t) eqn:E; [|assumption].
  now apply idx_set_named.
Qed.

(** A record whose key is not empty has a name. *)
Lemma key_truthy_named (c : ToolRecord) :
  truthy (record_key c) = true -> name_truthy c = true.
Proof.
  unfold record_key, get_name, name_truthy.
  destruct (ToolName c) as [[|a s]|]; simpl; intros H; try reflexivity; discriminate H.
Qed.

Lemma merge_loop_named (new : list ToolRecord) (idx : index) (n : Z) (items : list ToolRecord) :
  idx_named idx -> idx_named (fst (fst (merge_loop new idx n items))).
Proof.
  revert idx n items. induction new as [|c l IH]; simpl; intros idx n items Hall; [assumption|].
  destruct (truthy (record_key c)) eqn:Ek; simpl.
  - destruct (idx_mem (record_key c) idx); [now apply IH|].
    apply IH. apply idx_set_named; [|assumption]. now apply key_truthy_named.
  - now apply IH.
Qed.

End NamedFacts.

(** ** Merging an empty batch (C1) *)

(** A catalog as the merge itself leaves it: every record named, one
    record per key, in the order of the lowercased names. *)
Definition catalog_in_order (existing : list ToolRecord) : Prop :=
  (forall r, In r existing -> name_truthy r = true) /\
  NoDup (map record_key existing) /\
  Sorted name_le existing.

(** What a merge returns is such a catalog, whatever it was given. *)
Lemma merge_tools_in_order (existing new : list ToolRecord) :
  catalog_in_order (merged_of (merge_tools existing new)).
Proof.
  split; [|split].
  - rewrite merge_tools_unfold. unfold merged_of. simpl. intros r Hr.
    apply (proj1 (sort_by_name_In _ _)) in Hr. unfold idx_values in Hr.
    apply in_map_iff in Hr as [kv [<- Hin]].
    assert (Hn : idx_named (fst (fst (merge_loop new (build_index existing) 0%Z [])))).
    { apply merge_loop_named, index_from_named. constructor. }
    now apply (proj1 (List.Forall_forall _ _) Hn).
  - apply merge_tools_keys_NoDup.
  - rewrite merge_tools_unfold. unfold merged_of. simpl. apply sort_by_name_sorted.
Qed.

(** C1, as stated, fails: merging the empty batch into the catalog
    [b, a] returns [a, b], the records re-ordered by name. *)
Lemma merge_empty_batch_reorders :
  ~ (forall existing : list ToolRecord,
       merge_tools existing [] = (existing, 0%Z, [])).
Proof.
  intros H.
  specialize (H [bare_record (Some "b") ""; bare_record (Some "a") ""]).
  vm_compute in H. discriminate H.
Qed.

(** The record is the one the comprehension keeps for its key: it is
    named, and no named record after it in the catalog has its key. *)
Definition kept_by_merge (existing : list ToolRecord) (r : ToolRecord) : Prop :=
  exists pre post,
    existing = pre ++ r :: post /\ name_truthy r = true /\
    forall t, In t post -> name_truthy t = true -> record_key t <> record_key r.

Section EmptyBatch.

Lemma index_from_snoc (idx : index) (l : list ToolRecord) (t : ToolRecord) :
  index_from idx (l ++ [t]) =
  if name_truthy t then idx_set (record_key t) t (index_from idx l)
  else index_from idx l.
Proof. rewrite index_from_app. reflexivity. Qed.

(** With distinct keys, what [idx[k] = v] leaves under other keys was
    there before, and under [k] there is [v] only. *)
Lemma idx_set_entries_strong (k : string) (v : ToolRecord) (idx : index)
    (kv : string * ToolRecord) :
  NoDup (idx_keys idx) -> In kv (idx_set k v idx) ->
  kv = (k, v) \/ (In kv idx /\ fst kv <> k).
Proof.
  induction idx as [|[k' v'] idx IH]; simpl; intros Hnd Hin.
  - destruct Hin as [<-|[]]. now left.
  - apply NoDup_cons in Hnd as [Hk' Hnd].
    destruct (String.eqb k' k) eqn:E.
    + apply String.eqb_eq in E. subst k'. destruct Hin as [<-|Hin]; [now left|].
      right. split; [now right|]. intros Heq. apply Hk'. rewrite <- Heq.
      apply list_elem_of_In. unfold idx_keys. now apply in_map.
    + apply String.eqb_neq in E. destruct Hin as [<-|Hin].
      * right. split; [now left|exact E].
      * destruct (IH Hnd Hin) as [->|[Hin' Hne]]; [now left|].
        right. split; [now right|exact Hne].
Qed.

Lemma build_index_entry_kept (existing : list ToolRecord) (k : string) (r : ToolRecord) :
  In (k, r) (build_index existing) -> k = record_key r /\ kept_by_merge existing r.
Proof.
  unfold build_index. revert k r.
  induction existing as [|t l IH] using rev_ind; intros k r Hin; [destruct Hin|].
  assert (Hok : idx_ok (index_from [] l)) by apply index_from_ok, idx_ok_nil.
  assert (Hgrow : forall k0 r0, In (k0, r0) (index_from [] l) ->
            (name_truthy t = true -> k0 <> record_key t) ->
            k0 = record_key r0 /\ kept_by_merge (l ++ [t]) r0).
  { intros k0 r0 Hin0 Hne. destruct (IH k0 r0 Hin0) as (Hk0 & pre & post & -> & Hn & Hpost).
    split; [exact Hk0|]. exists pre, (post ++ [t]).
    split; [now rewrite <- app_assoc|]. split; [exact Hn|].
    intros t' Ht' Hnt'. apply in_app_or in Ht' as [Ht'|[<-|[]]]; [now apply Hpost|].
    intros Heq. apply (Hne Hnt'). congruence. }
  rewrite index_from_snoc in Hin. destruct (name_truthy t) eqn:Et.
  - apply idx_set_entries_strong in Hin; [|exact (proj1 Hok)].
    destruct Hin as [Heq|[Hin Hne]].
    + injection Heq as -> ->. split; [reflexivity|].
      exists l, []. split; [reflexivity|]. split; [exact Et|]. intros t' [].
    + apply Hgrow; [exact Hin|]. intros _. exact Hne.
  - apply Hgrow; [exact Hin|]. discriminate.
Qed.

Lemma build_index_kept (existing : list ToolRecord) (r : ToolRecord) :
  In r (idx_values (build_index existing)) <-> kept_by_merge existing r.
Proof.
  split.
  - unfold idx_values. intros Hin. apply in_map_iff in Hin as ([k r'] & <- & Hin).
    exact (proj2 (build_index_entry_kept existing k r' Hin)).
  - intros (pre & post & -> & Hn & Hpost). unfold idx_values.
    apply in_map_iff. exists (record_key r, r). split; [reflexivity|].
    unfold build_index. rewrite index_from_app. simpl. rewrite Hn.
    apply index_from_keeps; [exact Hpost|apply idx_set_In].
Qed.

Lemma merge_empty_unfold (existing : list ToolRecord) :
  merge_tools existing [] = (sort_by_name (idx_values (build_index existing)), 0%Z, []).
Proof. now rewrite merge_tools_unfold. Qed.

End EmptyBatch.

(** C1 (amended): merging an empty batch reports zero insertions and an
    empty inserted-items list for every catalog, and returns the catalog
    sorted by lowercased name: the same records whenever every record of
    the catalog is named and no two share a normalized key (in general,
    exactly its named records, the last one of each key), and therefore
    the catalog itself, same records in the same order, when it is in the
    order of the lowercased names as well, as every catalog is that a
    merge returned. *)
Theorem merge_empty_batch (existing : list ToolRecord) :
  inserted_of (merge_tools existing []) = 0%Z /\
  inserted_items_of (merge_tools existing []) = [] /\
  Sorted name_le (merged_of (merge_tools existing [])) /\
  NoDup (map record_key (merged_of (merge_tools existing []))) /\
  (forall r, In r (merged_of (merge_tools existing [])) <-> kept_by_merge existing r) /\
  ((forall r, In r existing -> name_truthy r = true) ->
   NoDup (map record_key existing) ->
   Permutation (merged_of (merge_tools existing [])) existing) /\
  (catalog_in_order existing ->
   merged_of (merge_tools existing []) = existing) /\
  (forall new,
     merge_tools (merged_of (merge_tools existing new)) []
     = (merged_of (merge_tools existing new), 0%Z, [])).
Proof.
  assert (Hvalues : forall l, (forall r, In r l -> name_truthy r = true) ->
            NoDup (map record_key l) -> idx_values (build_index l) = l).
  { intros l Hnamed Hnd. unfold build_index. rewrite index_from_distinct by assumption.
    simpl. unfold idx_values. rewrite map_map. simpl. apply map_id. }
  assert (Hid : forall l, catalog_in_order l -> merge_tools l [] = (l, 0%Z, [])).
  { intros l (Hnamed & Hnd & Hsorted).
    rewrite merge_empty_unfold, (Hvalues l Hnamed Hnd).
    now rewrite sort_by_name_id. }
  split; [now rewrite merge_empty_unfold|].
  split; [now rewrite merge_empty_unfold|].
  split; [rewrite merge_empty_unfold; apply sort_by_name_sorted|].
  split; [apply merge_tools_keys_NoDup|].
  split; [|split; [|split]].
  - intros r. rewrite merge_empty_unfold. unfold merged_of. simpl.
    rewrite sort_by_name_In. apply build_index_kept.
  - intros Hnamed Hnd. rewrite merge_empty_unfold. unfold merged_of. simpl.
    rewrite (Hvalues existing Hnamed Hnd). symmetry. apply sort_by_name_perm.
  - intros Hc. now rewrite (Hid existing Hc).
  - intros new. apply Hid, merge_tools_in_order.
Qed.

(** The amended C1 at the catalog [beta, Alpha], whose records come back
    re-ordered, and at the catalog [Alpha, beta], which comes back as it
    is. *)
Lemma merge_empty_batch_witness :
  Permutation
    (merged_of (merge_tools [bare_record (Some "beta") ""; bare_record (Some "Alpha") ""] []))
    [bare_record (Some "beta") ""; bare_record (Some "Alpha") ""] /\
  merged_of (merge_tools [bare_record (Some "Alpha") ""; bare_record (Some "beta") ""] [])
  = [bare_record (Some "Alpha") ""; bare_record (Some "beta") ""].
Proof.
  split.
  - apply (proj1 (proj2 (proj2 (proj2 (proj2 (proj2
             (merge_empty_batch [bare_record (Some "beta") "";
                                 bare_record (Some "Alpha") ""]))))))).
    + intros r [<- | [<- | [] ] ]; reflexivity.
    + apply NoDup_ListNoDup. repeat constructor; simpl; intuition discriminate.
  - apply (proj1 (proj2 (proj2 (proj2 (proj2 (proj2 (proj2
             (merge_empty_batch [bare_record (Some "Alpha") "";
                                 bare_record (Some "beta") ""])))))))).
    split; [|split].
    + intros r [<- | [<- | [] ] ]; reflexivity.
    + apply NoDup_ListNoDup. repeat constructor; simpl; intuition discriminate.
    + repeat constructor.
Defined.

(** Why the two conditions: a record without name is dropped, and of two
    records with one key the later is kept. *)
Example merge_empty_batch_drops_unnamed :
  merged_of (merge_tools [bare_record None "x"; bare_record (Some "a") "";
                          bare_record (Some "") "y"] [])
  = [bare_record (Some "a") ""].
Proof. reflexivity. Qed.

Example merge_empty_batch_keeps_last_of_key :
  merged_of (merge_tools [bare_record (Some "Foo") "first";
                          bare_record (Some "foo ") "second"] [])
  = [bare_record (Some "foo ") "second"].
Proof. reflexivity. Qed.

(** ** Names that differ by case and blanks only (C2) *)

(** The three spellings of the claim. *)
Definition foo_spelling (c : ToolRecord) : Prop :=
  ToolName c = Some "foo" \/ ToolName c = Some "FOO " \/ ToolName c = Some "  Foo".

Lemma foo_spelling_key (c : ToolRecord) : foo_spelling c -> record_key c = "foo".
Proof.
  unfold foo_spelling, record_key, get_name.
  intros [-> | [-> | ->] ]; reflexivity.
Qed.

(** C2, as stated, fails for a catalog that holds two records under the
    key [foo]: the comprehension keeps the later one, so the entry named
    [Foo] is gone from the merged catalog. *)
Lemma merge_Foo_entry_dropped :
  ~ (forall (existing new : list ToolRecord) (foo_entry : ToolRecord),
       In foo_entry existing -> ToolName foo_entry = Some "Foo" ->
       (forall c, In c new -> foo_spelling c) ->
       inserted_of (merge_tools existing new) = 0%Z /\
       In foo_entry (merged_of (merge_tools existing new))).
Proof.
  intros H.
  destruct (H [bare_record (Some "Foo") "first"; bare_record (Some "FOO") "second"]
              [bare_record (Some "foo") "new"]
              (bare_record (Some "Foo") "first")) as [_ Hin].
  - now left.
  - reflexivity.
  - intros c [<-|[]]. now left.
  - vm_compute in Hin. destruct Hin as [Heq|[]]. discriminate Heq.
Qed.

(** C2 (amended): the merged catalog never holds two records with the
    same normalized key; and when the catalog holds a record named [Foo]
    and every record of the batch is spelled [foo], [FOO ] or [  Foo], the
    merge inserts nothing, returns the catalog that merging the empty
    batch returns, and keeps the [Foo] entry provided no later named
    record of the catalog has the key [foo] as well. *)
Theorem merge_dedup_by_normalized_name :
  (forall existing new : list ToolRecord,
     NoDup (map record_key (merged_of (merge_tools existing new)))) /\
  (forall (pre post new : list ToolRecord) (foo_entry : ToolRecord),
     ToolName foo_entry = Some "Foo" ->
     (forall c, In c new -> foo_spelling c) ->
     inserted_of (merge_tools (pre ++ foo_entry :: post) new) = 0%Z /\
     inserted_items_of (merge_tools (pre ++ foo_entry :: post) new) = [] /\
     merged_of (merge_tools (pre ++ foo_entry :: post) new)
       = merged_of (merge_tools (pre ++ foo_entry :: post) []) /\
     ((forall t, In t post -> name_truthy t = true -> record_key t <> "foo") ->
      In foo_entry (merged_of (merge_tools (pre ++ foo_entry :: post) new)))).
Proof.
  split; [apply merge_tools_keys_NoDup|].
  intros pre post new e Hname Hnew.
  assert (Hkey : record_key e = "foo") by (unfold record_key, get_name; now rewrite Hname).
  assert (Htruthy : name_truthy e = true) by (unfold name_truthy; now rewrite Hname).
  assert (Hloop : merge_loop new (build_index (pre ++ e :: post)) 0%Z []
                  = (build_index (pre ++ e :: post), 0%Z, [])).
  { apply merge_loop_known. intros c Hc. rewrite (foo_spelling_key c (Hnew c Hc)).
    apply index_from_keys_In. right. exists e. split; [|split; assumption].
    apply in_or_app. right. now left. }
  rewrite !merge_tools_unfold, Hloop. unfold inserted_of, inserted_items_of, merged_of.
  simpl. repeat split.
  intros Hpost. apply sort_by_name_In. unfold idx_values.
  apply in_map_iff. exists ("foo", e). split; [reflexivity|].
  unfold build_index. rewrite index_from_app. simpl. rewrite Htruthy.
  apply index_from_keeps; [assumption|]. rewrite Hkey. apply idx_set_In.
Qed.

(** The amended C2 at the catalog [Bar, Foo] and the batch of the three
    spellings. *)
Lemma merge_dedup_by_normalized_name_witness :
  merge_tools [bare_record (Some "Bar") ""; bare_record (Some "Foo") "kept"]
              [bare_record (Some "foo") "n1"; bare_record (Some "FOO ") "n2";
               bare_record (Some "  Foo") "n3"]
  = ([bare_record (Some "Bar") ""; bare_record (Some "Foo") "kept"], 0%Z, []) /\
  In (bare_record (Some "Foo") "kept")
     (merged_of (merge_tools [bare_record (Some "Bar") ""; bare_record (Some "Foo") "kept"]
                   [bare_record (Some "foo") "n1"; bare_record (Some "FOO ") "n2";
                    bare_record (Some "  Foo") "n3"])).
Proof.
  split; [reflexivity|].
  refine (proj2 (proj2 (proj2
    (proj2 merge_dedup_by_normalized_name
       [bare_record (Some "Bar") ""] [] _ (bare_record (Some "Foo") "kept") _ _))) _).
  - reflexivity.
  - intros c [<-|[<-|[<-|[]]]]; unfold foo_spelling; simpl; auto.
  - intros t [].
Defined.

(** ** Score bounds (C3) *)

Section ScoreFacts.
Local Open Scope Z_scope.

(** Turns the recorded outcome of an integer comparison into the order
    fact it stands for. *)
Ltac cmp_fact E :=
  rewrite ?Z.geb_leb, ?Z.gtb_ltb in E;
  first [ apply Z.leb_le in E | apply Z.leb_gt in E
        | apply Z.ltb_lt in E | apply Z.ltb_ge in E
        | apply Z.eqb_eq in E | apply Z.eqb_neq in E ].

(** Splits the goal on every integer test that guards a branch. *)
Ltac z_cases :=
  repeat
    (let E := fresh "Hcmp" in
     match goal with
     | |- context [if (?a >=? ?b)%Z then _ else _] => destruct (a >=? b)%Z eqn:E
     | |- context [if (?a >? ?b)%Z then _ else _] => destruct (a >? b)%Z eqn:E
     | |- context [if (?a <? ?b)%Z then _ else _] => destruct (a <? b)%Z eqn:E
     | |- context [if (?a =? ?b)%Z then _ else _] => destruct (a =? b)%Z eqn:E
     end; cmp_fact E).

Definition in_0_5 (n : Z) : Prop := 0 <= n <= 5.

Lemma clamp_0_5 (n : Z) : in_0_5 (clamp n 0 5).
Proof. unfold in_0_5, clamp. lia. Qed.

Lemma hits_to_score_range (hits : Z) : 1 <= hits_to_score hits <= 5.
Proof. unfold hits_to_score. z_cases; lia. Qed.

Lemma ai_value_cases (ai : string) :
  (ai = "none" /\ ai_value ai = 1) \/
  (ai = "assisted" /\ ai_value ai = 3) \/
  (ai = "core" /\ ai_value ai = 5) \/
  (ai <> "none" /\ ai <> "assisted" /\ ai <> "core" /\ ai_value ai = 2).
Proof.
  unfold ai_value.
  destruct (decide (ai = "none")) as [->|Hn]; [left; split; reflexivity|].
  destruct (decide (ai = "assisted")) as [->|Ha]; [right; left; split; reflexivity|].
  destruct (decide (ai = "core")) as [->|Hc]; [right; right; left; split; reflexivity|].
  right; right; right. repeat (split; [assumption|]).
  rewrite !lookup_insert_ne by congruence. reflexivity.
Qed.

Lemma hits_to_score_0_5 (hits : Z) : in_0_5 (hits_to_score hits).
Proof. pose proof (hits_to_score_range hits). unfold in_0_5. lia. Qed.

Lemma ai_value_0_5 (ai : string) : in_0_5 (ai_value ai).
Proof.
  unfold in_0_5.
  destruct (ai_value_cases ai) as [[_ ->]|[[_ ->]|[[_ ->]|(_ & _ & _ & ->)]]]; lia.
Qed.

Lemma score_maturity_0_5 (stars : Z) (age_years : Q) (updated_days : Z) :
  in_0_5 (score_maturity stars age_years updated_days).
Proof. unfold score_maturity. apply clamp_0_5. Qed.

Lemma score_community_0_5 (stars forks open_issues : Z) :
  in_0_5 (score_community stars forks open_issues).
Proof. unfold score_community. apply clamp_0_5. Qed.

Lemma score_tco_0_5 : in_0_5 score_tco.
Proof. unfold in_0_5, score_tco. lia. Qed.

(** The score dictionary of a built candidate has the seven dimensions as
    its keys, each with a value in range. *)
Lemma build_candidate_scores (clock : Clock) (q : string) (it : RawItem) (k : string) (v : Z) :
  Scores (build_candidate clock q it) !! k = Some v ->
  In k ["Maturity"; "Integration"; "EmbeddedFit"; "AuditTraceability";
        "AIValue"; "TCO"; "CommunitySupport"] /\ in_0_5 v.
Proof.
  unfold build_candidate. cbn [Scores].
  repeat (rewrite lookup_insert; case_decide;
          [ intros Hv; injection Hv as <-; subst k; split;
            [ simpl; auto 10
            | first [ apply score_maturity_0_5 | apply score_community_0_5
                    | apply hits_to_score_0_5 | apply ai_value_0_5
                    | apply score_tco_0_5 ] ]
          | ]).
  rewrite lookup_empty. discriminate.
Qed.

(** C3: each of the seven dimension scorers returns an integer between 0
    and 5, whatever its arguments (so in particular for non-negative
    counts, age and staleness, any text and any AI-involvement string);
    the seven entries of a built candidate's score dictionary are such
    values; and Maturity(stars=0, age_years=0, updated_days=99999) is 0. *)
Theorem score_bounds :
  (forall stars age_years updated_days,
      in_0_5 (score_maturity stars age_years updated_days)) /\
  (forall text, in_0_5 (score_integration text)) /\
  (forall text, in_0_5 (score_embedded text)) /\
  (forall text, in_0_5 (score_audit text)) /\
  (forall ai_involvement, in_0_5 (ai_value ai_involvement)) /\
  in_0_5 score_tco /\
  (forall stars forks open_issues,
      in_0_5 (score_community stars forks open_issues)) /\
  (forall clock q it k v,
      Scores (build_candidate clock q it) !! k = Some v -> in_0_5 v) /\
  score_maturity 0 0 99999 = 0.
Proof.
  split; [exact score_maturity_0_5|].
  split; [intros text; apply hits_to_score_0_5|].
  split; [intros text; apply hits_to_score_0_5|].
  split; [intros text; apply hits_to_score_0_5|].
  split; [exact ai_value_0_5|].
  split; [exact score_tco_0_5|].
  split; [exact score_community_0_5|].
  split; [|reflexivity].
  intros clock q it k v H. exact (proj2 (build_candidate_scores _ _ _ _ _ H)).
Qed.

(** ** The Maturity rule (C4) *)

(** The rule in the words of the specification: the three parts, each by
    its conditions. *)
Definition star_bucket (stars base : Z) : Prop :=
  (5000 <= stars -> base = 5) /\
  (1000 <= stars < 5000 -> base = 4) /\
  (200 <= stars < 1000 -> base = 3) /\
  (50 <= stars < 200 -> base = 2) /\
  (stars < 50 -> base = 1).

Definition age_bonus (age_years : Q) (bonus : Z) : Prop :=
  ((5 # 1 <= age_years)%Q -> bonus = 1) /\
  ((age_years < 5 # 1)%Q -> bonus = 0).

Definition recency_adjustment (updated_days adj : Z) : Prop :=
  (365 < updated_days -> adj = -2) /\
  (180 < updated_days <= 365 -> adj = -1) /\
  (updated_days < 30 -> adj = 1) /\
  (30 <= updated_days <= 180 -> adj = 0).

Definition maturity_rule (stars : Z) (age_years : Q) (updated_days score : Z) : Prop :=
  exists base bonus adj,
    star_bucket stars base /\ age_bonus age_years bonus /\
    recency_adjustment updated_days adj /\
    score = Z.max 0 (Z.min 5 (base + bonus + adj)).

Lemma age_ge_5_true (age_years : Q) :
  age_ge_5 age_years = true <-> (5 # 1 <= age_years)%Q.
Proof. unfold age_ge_5. apply Qle_bool_iff. Qed.

Lemma age_ge_5_false (age_years : Q) :
  age_ge_5 age_years = false <-> (age_years < 5 # 1)%Q.
Proof.
  rewrite <- not_true_iff_false, age_ge_5_true. split.
  - apply Qnot_le_lt.
  - intros Hlt Hle. exact (Qlt_not_le _ _ Hlt Hle).
Qed.

(** C4: for every stars, age_years and updated_days the Maturity score is
    the star-bucket base (5, 4, 3, 2 or 1), plus 1 when age_years >= 5,
    plus the one recency adjustment that applies (-2 above 365 days, else
    -1 above 180 days, else +1 below 30 days, else 0), clamped to the
    range 0 to 5. *)
Theorem score_maturity_rule (stars : Z) (age_years : Q) (updated_days : Z) :
  maturity_rule stars age_years updated_days
    (score_maturity stars age_years updated_days).
Proof.
  unfold maturity_rule, score_maturity.
  exists (if stars >=? 5000 then 5 else if stars >=? 1000 then 4
          else if stars >=? 200 then 3 else if stars >=? 50 then 2 else 1),
         (if age_ge_5 age_years then 1 else 0),
         (if updated_days >? 365 then -2 else if updated_days >? 180 then -1
          else if updated_days <? 30 then 1 else 0).
  split; [|split; [|split]].
  - unfold star_bucket. z_cases; lia.
  - unfold age_bonus. destruct (age_ge_5 age_years) eqn:E.
    + split; [reflexivity|]. intros Hlt. apply age_ge_5_false in Hlt. congruence.
    + split; [|reflexivity]. intros Hle. apply age_ge_5_true in Hle. congruence.
  - unfold recency_adjustment. z_cases; lia.
  - unfold clamp. destruct (age_ge_5 age_years); z_cases; lia.
Qed.

(** The rule leaves no choice: it has one value. *)
Lemma maturity_rule_unique (stars : Z) (age_years : Q) (updated_days s1 s2 : Z) :
  maturity_rule stars age_years updated_days s1 ->
  maturity_rule stars age_years updated_days s2 -> s1 = s2.
Proof.
  intros (b1 & a1 & r1 & Hb1 & Ha1 & Hr1 & ->) (b2 & a2 & r2 & Hb2 & Ha2 & Hr2 & ->).
  assert (b1 = b2) by (unfold star_bucket in *; lia).
  assert (r1 = r2) by (unfold recency_adjustment in *; lia).
  assert (a1 = a2).
  { destruct Ha1 as [H1 H1'], Ha2 as [H2 H2'].
    destruct (Qlt_le_dec age_years (5 # 1)) as [Hlt|Hle].
    - now rewrite (H1' Hlt), (H2' Hlt).
    - now rewrite (H1 Hle), (H2 Hle). }
  congruence.
Qed.

(** C4 at the scenario of the specification (1200 stars, 6 years, pushed
    10 days ago: 4 + 1 + 1 cut to 5) and at a new repository never pushed
    (1 - 2 raised to 0): the rule holds of these scores and, having one
    value, of no other. *)
Lemma score_maturity_rule_witness :
  maturity_rule 1200 6 10 5 /\ maturity_rule 0 0 99999 0.
Proof.
  split.
  - exact (score_maturity_rule 1200 6 10).
  - exact (score_maturity_rule 0 0 99999).
Defined.

Example maturity_scenario : score_maturity 1200 6 10 = 5.
Proof. reflexivity. Qed.

End ScoreFacts.

(** ** The tier rule (C5) *)

Section TierFacts.
Local Open Scope Z_scope.

(** [scores.get("Maturity", 0)] and [scores.get("AIValue", 0)] *)
Definition maturity_of (scores : gmap string Z) : Z := default 0 (scores !! "Maturity").
Definition ai_value_of (scores : gmap string Z) : Z := default 0 (scores !! "AIValue").

(** The place of a tier on the ladder Hold, Assess, Trial, Adopt. *)
Definition tier_rank (tier : string) : nat :=
  if String.eqb tier "Adopt" then 3
  else if String.eqb tier "Trial" then 2
  else if String.eqb tier "Assess" then 1
  else 0.

Lemma classify_cases (scores : gmap string Z) :
  classify scores =
    if (maturity_of scores >=? 4) && (ai_value_of scores >=? 3) then "Adopt"
    else if (maturity_of scores >=? 3) && (ai_value_of scores >=? 3) then "Trial"
    else if maturity_of scores >=? 2 then "Assess"
    else "Hold".
Proof. reflexivity. Qed.

(** Splits on the four tests of [classify]. *)
Ltac tier_cases :=
  rewrite !classify_cases;
  repeat
    (let E := fresh "Hcmp" in
     match goal with
     | |- context [(?a >=? ?b)%Z] =>
         destruct (a >=? b)%Z eqn:E; rewrite Z.geb_leb in E;
         first [apply Z.leb_le in E | apply Z.leb_gt in E]
     end);
  unfold tier_rank; simpl; first [reflexivity | lia | exfalso; lia].

(** C5: the rules are tried from the top and the first that matches
    decides (Maturity >= 4 and AIValue >= 3: Adopt; else Maturity >= 3 and
    AIValue >= 3: Trial; else Maturity >= 2: Assess; else Hold).  So with
    AIValue >= 3 held fixed, Maturity 2, 3, 4 give Assess, Trial, Adopt,
    one step of the ladder at a time, and with any AIValue held fixed a
    larger Maturity never gives a lower tier. *)
Theorem classify_first_match_monotone :
  (forall scores,
     (4 <= maturity_of scores /\ 3 <= ai_value_of scores ->
        classify scores = "Adopt") /\
     (~ (4 <= maturity_of scores /\ 3 <= ai_value_of scores) ->
      3 <= maturity_of scores /\ 3 <= ai_value_of scores ->
        classify scores = "Trial") /\
     (~ (4 <= maturity_of scores /\ 3 <= ai_value_of scores) ->
      ~ (3 <= maturity_of scores /\ 3 <= ai_value_of scores) ->
      2 <= maturity_of scores ->
        classify scores = "Assess") /\
     (~ (4 <= maturity_of scores /\ 3 <= ai_value_of scores) ->
      ~ (3 <= maturity_of scores /\ 3 <= ai_value_of scores) ->
      ~ 2 <= maturity_of scores ->
        classify scores = "Hold")) /\
  (forall scores, 3 <= ai_value_of scores ->
     (maturity_of scores = 2 -> classify scores = "Assess") /\
     (maturity_of scores = 3 -> classify scores = "Trial") /\
     (maturity_of scores = 4 -> classify scores = "Adopt")) /\
  (forall s1 s2,
     ai_value_of s1 = ai_value_of s2 ->
     maturity_of s1 <= maturity_of s2 ->
     (tier_rank (classify s1) <= tier_rank (classify s2))%nat).
Proof.
  split; [|split].
  - intros scores. repeat split; intros; tier_cases.
  - intros scores Ha. repeat split; intros; tier_cases.
  - intros s1 s2 Ha Hm. tier_cases.
Qed.

(** The ladder on three score dictionaries with AIValue 3. *)
Lemma classify_first_match_monotone_witness :
  classify (<["Maturity" := 2]> (<["AIValue" := 3]> ∅)) = "Assess" /\
  classify (<["Maturity" := 3]> (<["AIValue" := 3]> ∅)) = "Trial" /\
  classify (<["Maturity" := 4]> (<["AIValue" := 3]> ∅)) = "Adopt".
Proof.
  pose proof (proj1 (proj2 classify_first_match_monotone)) as H.
  split; [|split].
  - apply (H (<["Maturity" := 2]> (<["AIValue" := 3]> ∅))); vm_compute; [discriminate|reflexivity].
  - apply (H (<["Maturity" := 3]> (<["AIValue" := 3]> ∅))); vm_compute; [discriminate|reflexivity].
  - apply (H (<["Maturity" := 4]> (<["AIValue" := 3]> ∅))); vm_compute; [discriminate|reflexivity].
Defined.

Example classify_scenario :
  classify (<["Maturity" := 5]> (<["AIValue" := 1]> ∅)) = "Assess".
Proof. vm_compute. reflexivity. Qed.

Example classify_empty : classify ∅ = "Hold".
Proof. vm_compute. reflexivity. Qed.

End TierFacts.

(** ** Substrings *)

Section TextFacts.

(** [k] occurs in [t]. *)
Definition Substring (k t : string) : Prop :=
  exists pre post, t = pre +:+ k +:+ post.

Lemma append_cons (c : ascii) (s1 s2 : string) :
  String c s1 +:+ s2 = String c (s1 +:+ s2).
Proof. reflexivity. Qed.

Lemma prefix_true_iff (k t : string) :
  String.prefix k t = true <-> exists post, t = k +:+ post.
Proof.
  revert t. induction k as [|c k IH]; intros t; simpl.
  - destruct t; split; eauto.
  - destruct t as [|d t]; simpl.
    + split; [discriminate|]. intros [post H]. rewrite append_cons in H. discriminate H.
    + destruct (ascii_dec c d) as [->|Hne].
      * rewrite IH. split; intros [post H]; exists post;
          rewrite append_cons in *; congruence.
      * split; [discriminate|]. intros [post H]. rewrite append_cons in H. congruence.
Qed.

Lemma contains_Substring (k t : string) :
  contains k t = true <-> Substring k t.
Proof.
  unfold Substring. induction t as [|d t IH].
  - cbn [contains]. rewrite orb_false_r, prefix_true_iff. split.
    + intros [post H]. now exists EmptyString, post.
    + intros [[|c pre] [post H]]; [now exists post|].
      rewrite append_cons in H. discriminate H.
  - cbn [contains]. rewrite orb_true_iff, prefix_true_iff, IH. split.
    + intros [[post H]|[pre [post H]]].
      * now exists EmptyString, post.
      * exists (String d pre), post. rewrite append_cons. now rewrite H.
    + intros [[|c pre] [post H]].
      * left. now exists post.
      * right. exists pre, post. rewrite append_cons in H. congruence.
Qed.

Lemma any_in_true (keys : list string) (t : string) :
  any_in keys t = true <-> exists k, In k keys /\ Substring k t.
Proof.
  unfold any_in. rewrite existsb_exists.
  split; intros [k [Hin H]]; exists k; (split; [assumption|]);
    now apply contains_Substring.
Qed.

Lemma any_in_false (keys : list string) (t : string) :
  any_in keys t = false <-> ~ exists k, In k keys /\ Substring k t.
Proof. rewrite <- any_in_true. now destruct (any_in keys t). Qed.

(** ** Phase inference (C6) *)

(** The loop appends, in table order, the labels whose keywords match. *)
Lemma phases_loop_filter (table : list (string * list string)) (t : string)
    (phases : list string) :
  phases_loop table t phases =
  phases ++ map fst (List.filter (fun pk => any_in (snd pk) t) table).
Proof.
  revert phases. induction table as [|[phase keys] rest IH]; intros phases; simpl.
  - now rewrite app_nil_r.
  - destruct (any_in keys t); rewrite IH; [|reflexivity].
    now rewrite <- app_assoc.
Qed.

(** Some keyword of the label's list occurs in the lowercased text. *)
Definition phase_matches (text label : string) : Prop :=
  exists keys k,
    In (label, keys) PHASE_KEYWORDS /\ In k keys /\ Substring k (lower text).

Lemma phases_loop_In (text label : string) :
  In label (phases_loop PHASE_KEYWORDS (lower text) []) <-> phase_matches text label.
Proof.
  rewrite phases_loop_filter. cbn [app]. rewrite in_map_iff. unfold phase_matches. split.
  - intros [[l keys] [<- Hin]]. apply List.filter_In in Hin as [Hin Hany].
    apply any_in_true in Hany as [k [Hk Hsub]]. now exists keys, k.
  - intros (keys & k & Hin & Hk & Hsub). exists (label, keys). split; [reflexivity|].
    apply List.filter_In. split; [assumption|]. apply any_in_true. now exists k.
Qed.

(** C6: phase inference never returns the empty list; when some phase
    matches, a label is in the result exactly when one of its keywords is
    a substring of the lowercased text; when none matches, the result is
    the one-element list [Data/AI Lifecycle]. *)
Theorem infer_vmodel_phases_spec (text : string) :
  infer_vmodel_phases text <> [] /\
  ((exists label, phase_matches text label) ->
   forall label, In label (infer_vmodel_phases text) <-> phase_matches text label) /\
  ((forall label, ~ phase_matches text label) ->
   infer_vmodel_phases text = ["Data/AI Lifecycle"]).
Proof.
  unfold infer_vmodel_phases. cbv zeta.
  pose proof (phases_loop_In text) as Hin.
  destruct (phases_loop PHASE_KEYWORDS (lower text) []) as [|p ps] eqn:E.
  - split; [discriminate|]. split; [|reflexivity].
    intros [label Hm]. apply Hin in Hm. destruct Hm.
  - split; [discriminate|]. split.
    + intros _ label. apply Hin.
    + intros Hnone. exfalso. apply (Hnone p). apply Hin. now left.
Qed.

(** C6 on a text with two matching phases, and on one with none. *)
Lemma infer_vmodel_phases_spec_witness :
  (forall label,
     In label (infer_vmodel_phases "ACME Robotics Gazebo Simulation") <->
     phase_matches "ACME Robotics Gazebo Simulation" label) /\
  infer_vmodel_phases "plain text editor" = ["Data/AI Lifecycle"].
Proof.
  split.
  - apply (proj1 (proj2 (infer_vmodel_phases_spec "ACME Robotics Gazebo Simulation"))).
    exists "Architektur/Design", ["mbse"; "sysml"; "model-based"; "architecture"; "simulation"],
           "simulation".
    split; [simpl; auto|]. split; [simpl; auto 10|].
    now exists "acme robotics gazebo ", "".
  - apply (proj2 (proj2 (infer_vmodel_phases_spec "plain text editor"))).
    intros label Hm. apply phases_loop_In in Hm. vm_compute in Hm. exact Hm.
Defined.

(** ** AI-involvement inference (C7) *)

Definition mentions (keys : list string) (text : string) : Prop :=
  exists k, In k keys /\ Substring k (lower text).

(** C7: the core keywords are tried before the assisted ones and the first
    list that matches decides: a text with a core keyword is [core], also
    when it has assisted keywords; a text with an assisted keyword and no
    core keyword is [assisted]; any other text is [none]. *)
Theorem infer_ai_involvement_precedence (text : string) :
  (mentions AI_HINTS_CORE text -> infer_ai_involvement text = "core") /\
  (~ mentions AI_HINTS_CORE text -> mentions AI_HINTS_ASSISTED text ->
     infer_ai_involvement text = "assisted") /\
  (~ mentions AI_HINTS_CORE text -> ~ mentions AI_HINTS_ASSISTED text ->
     infer_ai_involvement text = "none").
Proof.
  unfold infer_ai_involvement, mentions. cbv zeta.
  destruct (any_in AI_HINTS_CORE (lower text)) eqn:Ec.
  - apply any_in_true in Ec. repeat split; intros; tauto.
  - apply any_in_false in Ec.
    destruct (any_in AI_HINTS_ASSISTED (lower text)) eqn:Ea.
    + apply any_in_true in Ea. repeat split; intros; tauto.
    + apply any_in_false in Ea. repeat split; intros; tauto.
Qed.

(** C7 on a text that has a keyword of both lists. *)
Lemma infer_ai_involvement_precedence_witness :
  mentions AI_HINTS_ASSISTED "LLM agent for model Training" /\
  infer_ai_involvement "LLM agent for model Training" = "core".
Proof.
  split.
  - exists "llm". split; [simpl; auto|]. now exists "", " agent for model training".
  - apply (proj1 (infer_ai_involvement_precedence "LLM agent for model Training")).
    exists "training". split; [simpl; auto|]. now exists "llm agent for model ", "".
Defined.

Example infer_ai_assisted : infer_ai_involvement "A Copilot for RTOS" = "assisted".
Proof. reflexivity. Qed.
Example infer_ai_none : infer_ai_involvement "ACME Robotics Gazebo Simulation" = "none".
Proof. reflexivity. Qed.

End TextFacts.

(** ** Evidence links of a candidate (C10) *)

Section BuilderFacts.

Variable clock : Clock.
Variable search : string -> result (list RawItem).

(** [c] is a record the builder made. *)
Definition built (c : ToolRecord) : Prop :=
  exists q it, c = build_candidate clock q it.

Lemma collect_items_built (q : string) (items : list RawItem)
    (candidates : list ToolRecord) (max_results : Z) :
  Forall built candidates ->
  Forall built (collect_items clock q items candidates max_results).
Proof.
  revert candidates. induction items as [|it rest IH]; simpl; intros candidates Hall.
  - assumption.
  - assert (Hall' : Forall built (candidates ++ [build_candidate clock q it])).
    { apply Forall_app. split; [assumption|]. repeat constructor. now exists q, it. }
    destruct (cap_reached _ max_results); [assumption|]. now apply IH.
Qed.

Lemma collect_queries_built (queries : list string) (candidates : list ToolRecord)
    (max_results : Z) (r : list ToolRecord) :
  Forall built candidates ->
  collect_queries clock search queries candidates max_results = Ok r ->
  Forall built r.
Proof.
  revert candidates. induction queries as [|q rest IH]; simpl; intros candidates Hall Hr.
  - now injection Hr as <-.
  - destruct (search q) as [items|e]; simpl in Hr; [|discriminate].
    pose proof (collect_items_built q items candidates max_results Hall) as Hc.
    destruct (cap_reached _ max_results).
    + now injection Hr as <-.
    + now apply (IH _ Hc).
Qed.

Lemma dedup_loop_In (candidates : list ToolRecord) (seen : gset string)
    (uniq : list ToolRecord) (max_results : Z) (c : ToolRecord) :
  In c (dedup_loop candidates seen uniq max_results) ->
  In c uniq \/ In c candidates.
Proof.
  revert seen uniq. induction candidates as [|d rest IH]; simpl; intros seen uniq Hin.
  - now left.
  - destruct (decide (record_key d ∈ seen)).
    + apply IH in Hin. tauto.
    + destruct (Z.of_nat (List.length (uniq ++ [d])) >=? max_results)%Z.
      * apply in_app_or in Hin as [H|[<-|[]]]; tauto.
      * apply IH in Hin as [H|H]; [|tauto].
        apply in_app_or in H as [H|[<-|[]]]; tauto.
Qed.

Lemma scout_github_built (max_results : Z) (recs : list ToolRecord) (c : ToolRecord) :
  scout_github clock search max_results = Ok recs -> In c recs -> built c.
Proof.
  unfold scout_github, batch_dedup. intros Hs Hin.
  destruct (collect_queries clock search build_queries [] max_results) as [cands|e] eqn:E;
    simpl in Hs; [|discriminate].
  injection Hs as <-.
  apply (proj1 (sort_by_name_In _ _)) in Hin.
  apply dedup_loop_In in Hin as [[]|Hin].
  apply collect_queries_built in E; [|constructor].
  now apply (proj1 (List.Forall_forall _ _) E).
Qed.

Lemma build_candidate_evidence (q : string) (it : RawItem) :
  EvidenceLinks (build_candidate clock q it) =
  [ str_or (it_html_url it) "";
    if truthy (str_or (it_homepage it) "") then str_or (it_homepage it) ""
    else str_or (it_html_url it) "" ].
Proof. reflexivity. Qed.

Lemma build_candidate_name (q : string) (it : RawItem) :
  ToolName (build_candidate clock q it) = Some (str_or (it_name it) "Unknown") /\
  name_truthy (build_candidate clock q it) = true.
Proof.
  split; [reflexivity|]. unfold name_truthy. cbn [build_candidate ToolName].
  unfold str_or. destruct (it_name it) as [[|a s]|]; reflexivity.
Qed.

End BuilderFacts.

(** C10: the evidence list of a candidate has exactly two entries, the
    repository URL and then the homepage, or the repository URL again when
    the homepage is empty or missing; the two are both empty when the
    item has neither; and every record that discovery returns is such a
    candidate. *)
Theorem evidence_links_exactly_two :
  (forall clock q it,
     EvidenceLinks (build_candidate clock q it) =
       [ str_or (it_html_url it) "";
         if truthy (str_or (it_homepage it) "") then str_or (it_homepage it) ""
         else str_or (it_html_url it) "" ] /\
     List.length (EvidenceLinks (build_candidate clock q it)) = 2%nat) /\
  (forall clock q it,
     it_html_url it = None -> it_homepage it = None ->
     EvidenceLinks (build_candidate clock q it) = [""; ""]) /\
  (forall clock search max_results recs c,
     scout_github clock search max_results = Ok recs -> In c recs ->
     List.length (EvidenceLinks c) = 2%nat).
Proof.
  split; [|split].
  - intros clock q it. now rewrite build_candidate_evidence.
  - intros clock q it Hu Hh. rewrite build_candidate_evidence, Hu, Hh. reflexivity.
  - intros clock search max_results recs c Hs Hin.
    destruct (scout_github_built clock search max_results recs c Hs Hin) as (q & it & ->).
    reflexivity.
Qed.

(** C10 on an item without homepage, and on the records of a run. *)
Lemma evidence_links_exactly_two_witness :
  EvidenceLinks (build_candidate sample_clock "q" (sample_item "zeta" "https://example.org/zeta"))
    = ["https://example.org/zeta"; "https://example.org/zeta"] /\
  (forall c, In c [build_candidate sample_clock "embedded rtos tool"
                     (sample_item "zeta" "https://example.org/zeta")] ->
             List.length (EvidenceLinks c) = 2%nat).
Proof.
  split.
  - exact (proj1 (proj1 evidence_links_exactly_two sample_clock "q"
                    (sample_item "zeta" "https://example.org/zeta"))).
  - intros c Hin.
    apply (proj2 (proj2 evidence_links_exactly_two) sample_clock search_one 1%Z
             [build_candidate sample_clock "embedded rtos tool"
                (sample_item "zeta" "https://example.org/zeta")] c);
      [vm_compute; reflexivity|exact Hin].
Defined.

(** ** Batch-level dedup (C8) *)

(** Keeping, of every key, the first record that has it: the dedup in the
    words of the specification.  [seen] are the keys taken already. *)
Fixpoint keep_first (seen : gset string) (l : list ToolRecord) : list ToolRecord :=
  match l with
  | [] => []
  | c :: rest =>
      if decide (record_key c ∈ seen) then keep_first seen rest
      else c :: keep_first ({[ (record_key c) ]} ∪ seen) rest
  end.

Section DedupFacts.

Variable clock : Clock.
Variable search : string -> result (list RawItem).

Lemma keep_first_keys (seen : gset string) (l : list ToolRecord) (c : ToolRecord) :
  In c (keep_first seen l) -> (record_key c ∉ seen) /\ In c l.
Proof.
  revert seen. induction l as [|d rest IH]; simpl; intros seen Hin; [contradiction|].
  destruct (decide (record_key d ∈ seen)).
  - apply IH in Hin. tauto.
  - destruct Hin as [<-|Hin]; [tauto|].
    apply IH in Hin as [Hn Hin]. split; [|tauto].
    intros Hs. apply Hn, elem_of_union. now right.
Qed.

(** No key is kept twice. *)
Lemma keep_first_NoDup (seen : gset string) (l : list ToolRecord) :
  NoDup (map record_key (keep_first seen l)).
Proof.
  revert seen. induction l as [|d rest IH]; simpl; intros seen; [constructor|].
  destruct (decide (record_key d ∈ seen)); [apply IH|].
  simpl. apply NoDup_cons. split; [|apply IH].
  rewrite list_elem_of_In, in_map_iff. intros [c [Hk Hin]].
  apply keep_first_keys in Hin as [Hn _]. set_solver.
Qed.

(** The record kept for a key is the first of the list with that key. *)
Lemma keep_first_first (seen : gset string) (l : list ToolRecord) (c : ToolRecord) :
  In c (keep_first seen l) ->
  exists pre post, l = pre ++ c :: post /\
    forall d, In d pre -> record_key d <> record_key c.
Proof.
  revert seen. induction l as [|d rest IH]; simpl; intros seen Hin; [contradiction|].
  destruct (decide (record_key d ∈ seen)) as [Hd|Hd].
  - pose proof (keep_first_keys _ _ _ Hin) as [Hc _].
    apply IH in Hin as (pre & post & -> & Hpre).
    exists (d :: pre), post. split; [reflexivity|].
    intros d' [<-|Hd']; [congruence|now apply Hpre].
  - destruct Hin as [<-|Hin].
    + exists [], rest. split; [reflexivity|]. intros d' [].
    + pose proof (keep_first_keys _ _ _ Hin) as [Hc _].
      apply IH in Hin as (pre & post & -> & Hpre).
      exists (d :: pre), post. split; [reflexivity|].
      intros d' [<-|Hd']; [set_solver|now apply Hpre].
Qed.

(** With room left in [uniq], the loop appends the first records of the
    keys not seen yet, up to the bound. *)
Lemma dedup_loop_keep_first (candidates : list ToolRecord) (seen : gset string)
    (uniq : list ToolRecord) (max_results : Z) :
  (Z.of_nat (List.length uniq) < max_results)%Z ->
  dedup_loop candidates seen uniq max_results =
  uniq ++ firstn (Z.to_nat max_results - List.length uniq) (keep_first seen candidates).
Proof.
  revert seen uniq. induction candidates as [|c rest IH]; simpl; intros seen uniq Hlt.
  - now rewrite firstn_nil, app_nil_r.
  - destruct (decide (record_key c ∈ seen)); [now apply IH|].
    rewrite Z.geb_leb.
    destruct (Z.leb_spec max_results (Z.of_nat (List.length (uniq ++ [c])))) as [Hge|Hlt'].
    + rewrite length_app in Hge. simpl in Hge.
      replace (Z.to_nat max_results - List.length uniq)%nat with 1%nat by lia.
      reflexivity.
    + rewrite IH by assumption. rewrite length_app in *. simpl in *.
      replace (Z.to_nat max_results - List.length uniq)%nat
        with (S (Z.to_nat max_results - (List.length uniq + 1)))%nat by lia.
      simpl. now rewrite <- app_assoc.
Qed.

Lemma collect_items_cap (q : string) (items : list RawItem)
    (candidates : list ToolRecord) (max_results : Z) :
  (Z.of_nat (List.length candidates) < max_results * 3)%Z ->
  (Z.of_nat (List.length (collect_items clock q items candidates max_results))
     <= max_results * 3)%Z.
Proof.
  revert candidates. induction items as [|it rest IH]; simpl; intros candidates Hlt; [lia|].
  unfold cap_reached. rewrite Z.geb_leb.
  destruct (Z.leb_spec (max_results * 3)
              (Z.of_nat (List.length (candidates ++ [build_candidate clock q it]))))
    as [Hge|Hlt'].
  - rewrite length_app in *. simpl in *. lia.
  - now apply IH.
Qed.

Lemma collect_queries_cap (queries : list string) (candidates : list ToolRecord)
    (max_results : Z) (r : list ToolRecord) :
  (Z.of_nat (List.length candidates) < max_results * 3)%Z ->
  collect_queries clock search queries candidates max_results = Ok r ->
  (Z.of_nat (List.length r) <= max_results * 3)%Z.
Proof.
  revert candidates. induction queries as [|q rest IH]; simpl; intros candidates Hlt Hr.
  - injection Hr as <-. lia.
  - destruct (search q) as [items|e]; simpl in Hr; [|discriminate].
    pose proof (collect_items_cap q items candidates max_results Hlt) as Hc.
    unfold cap_reached in Hr. rewrite Z.geb_leb in Hr.
    destruct (Z.leb_spec (max_results * 3)
                (Z.of_nat (List.length (collect_items clock q items candidates max_results))))
      as [Hge|Hlt'].
    + now injection Hr as <-.
    + now apply (IH _ Hlt').
Qed.

End DedupFacts.

(** C8, on the code, at [max_results = 0]: the tests [len(candidates) >=
    max_results * 3] and [len(uniq) >= max_results] come after the
    [append], so one candidate is collected and one record is returned,
    where the claim allows none. *)
Theorem batch_dedup_zero_max_returns_one :
  collect_queries sample_clock search_one build_queries [] 0
    = Ok [build_candidate sample_clock "embedded rtos tool"
            (sample_item "zeta" "https://example.org/zeta")] /\
  scout_github sample_clock search_one 0
    = Ok [build_candidate sample_clock "embedded rtos tool"
            (sample_item "zeta" "https://example.org/zeta")] /\
  (forall c, batch_dedup [c] 0 = [c]).
Proof.
  split; [vm_compute; reflexivity|]. split; [vm_compute; reflexivity|].
  intros c. unfold batch_dedup. simpl.
  destruct (decide (record_key c ∈ (∅ : gset string))) as [H|_]; [set_solver|].
  reflexivity.
Qed.

(** X1: for [max_results >= 1], at most [3 * max_results] candidates are
    collected, and the dedup stage returns the first [max_results] of the
    candidates' first records per normalized key, sorted by lowercased
    name, no key twice. *)
Theorem batch_dedup_positive_max (clock : Clock) (search : string -> result (list RawItem))
    (max_results : Z) :
  (1 <= max_results)%Z ->
  (forall candidates,
     collect_queries clock search build_queries [] max_results = Ok candidates ->
     (Z.of_nat (List.length candidates) <= 3 * max_results)%Z) /\
  (forall candidates,
     batch_dedup candidates max_results
       = sort_by_name (firstn (Z.to_nat max_results) (keep_first ∅ candidates)) /\
     Sorted name_le (batch_dedup candidates max_results) /\
     (Z.of_nat (List.length (batch_dedup candidates max_results)) <= max_results)%Z /\
     NoDup (map record_key (batch_dedup candidates max_results))).
Proof.
  intros Hmax. split.
  - intros candidates Hc.
    apply collect_queries_cap in Hc; simpl; lia.
  - intros candidates.
    assert (Heq : batch_dedup candidates max_results
                  = sort_by_name (firstn (Z.to_nat max_results) (keep_first ∅ candidates))).
    { unfold batch_dedup. rewrite dedup_loop_keep_first by (simpl; lia).
      simpl. now rewrite Nat.sub_0_r. }
    split; [exact Heq|]. split; [|split].
    + unfold batch_dedup. apply sort_by_name_sorted.
    + rewrite Heq, sort_by_name_length, length_firstn. lia.
    + rewrite Heq. apply NoDup_ListNoDup.
      apply (Permutation_NoDup
               (l := map record_key (firstn (Z.to_nat max_results) (keep_first ∅ candidates)))).
      * apply Permutation_map, sort_by_name_perm.
      * apply NoDup_ListNoDup.
        pose proof (keep_first_NoDup ∅ candidates) as Hnd.
        rewrite <- (firstn_skipn (Z.to_nat max_results) (keep_first ∅ candidates)) in Hnd.
        rewrite map_app in Hnd. apply NoDup_app in Hnd. exact (proj1 Hnd).
Qed.

(** X1 at [max_results = 1] on two spellings of one name. *)
Lemma batch_dedup_positive_max_witness :
  batch_dedup [bare_record (Some "Zeta") "first"; bare_record (Some "zeta ") "second"] 1
  = sort_by_name (firstn 1 (keep_first ∅
      [bare_record (Some "Zeta") "first"; bare_record (Some "zeta ") "second"])).
Proof.
  refine (proj1 (proj2 (batch_dedup_positive_max sample_clock search_one 1 _) _)).
  lia.
Defined.

(** ** Fatal failures and probe failures (C9) *)

Section ValidatorFacts.

Variable probe : string -> ProbeResult.

(** The entry the validator writes for a record whose first link fails. *)
Definition broken_entry (t : ToolRecord) (link : string) : BrokenLink :=
  {| bl_tool := ToolName t; bl_link := link;
     bl_info := snd (http_head_ok probe link) |}.

(** The first link of [t] was probed and found unreachable. *)
Definition probe_failed (t : ToolRecord) (link : string) : Prop :=
  (exists rest, EvidenceLinks t = link :: rest) /\
  fst (http_head_ok probe link) = false.

Lemma validate_links_In (tools : list ToolRecord) (broken : list BrokenLink) (b : BrokenLink) :
  In b (validate_links probe tools broken) <->
  In b broken \/
  exists t link, In t tools /\ probe_failed t link /\ b = broken_entry t link.
Proof.
  revert broken. induction tools as [|t rest IH]; simpl; intros broken.
  - split; [tauto|]. intros [H|(t & link & [] & _)]. exact H.
  - unfold probe_failed, broken_entry in *.
    destruct (EvidenceLinks t) as [|link links] eqn:El.
    + rewrite IH. split.
      * intros [H|(t' & l' & Hin & Hf & ->)]; [tauto|]. right. exists t', l'. tauto.
      * intros [H|(t' & l' & [Ht|Hin] & [[r Hr] Hf] & ->)]; [tauto|congruence|].
        right. exists t', l'. eauto.
    + destruct (http_head_ok probe link) as [ok info] eqn:Eh. destruct ok.
      * rewrite IH. split.
        -- intros [H|(t' & l' & Hin & Hf & ->)]; [tauto|]. right. exists t', l'. tauto.
        -- intros [H|(t' & l' & [Ht|Hin] & [[r Hr] Hf] & ->)]; [tauto| |].
           ++ subst t'. rewrite El in Hr. injection Hr as Hl _. subst l'.
              rewrite Eh in Hf. simpl in Hf. discriminate Hf.
           ++ right. exists t', l'. eauto.
      * rewrite IH, in_app_iff. simpl. split.
        -- intros [[H|[<-|[]]]|(t' & l' & Hin & Hf & ->)]; [tauto| |].
           ++ right. exists t, link. rewrite El, Eh. simpl.
              split; [now left|]. split; [|reflexivity].
              split; [now exists links|reflexivity].
           ++ right. exists t', l'. tauto.
        -- intros [H|(t' & l' & [Ht|Hin] & [[r Hr] Hf] & ->)]; [tauto| |].
           ++ subst t'. rewrite El in Hr. injection Hr as Hl _. subst l'.
              rewrite Eh. simpl. tauto.
           ++ right. exists t', l'. eauto.
Qed.

(** What the probe did to the link the entry [b] reports for [t]: it
    raised, and [b] carries the message; or it answered with a status
    outside 200..399, and [b] carries the status. *)
Definition reported (t : ToolRecord) (link : string) (b : BrokenLink) : Prop :=
  (exists msg,
     probe link = ProbeRaised msg /\
     b = {| bl_tool := ToolName t; bl_link := link; bl_info := msg |}) \/
  (exists code,
     probe link = Responded code /\ (code < 200 \/ 400 <= code)%Z /\
     b = {| bl_tool := ToolName t; bl_link := link; bl_info := str_of_Z code |}).

Lemma probe_failed_reported (t : ToolRecord) (link : string) (b : BrokenLink) :
  probe_failed t link /\ b = broken_entry t link <->
  (exists rest, EvidenceLinks t = link :: rest) /\ reported t link b.
Proof.
  unfold probe_failed, broken_entry, reported, http_head_ok.
  destruct (probe link) as [code|msg]; simpl.
  - rewrite andb_false_iff, Z.leb_gt, Z.ltb_ge. split.
    + intros [[Hr Hc] ->]. split; [exact Hr|]. right. exists code. tauto.
    + intros [Hr [(msg & Hm & _)|(c & Hc & Hrange & ->)]]; [discriminate Hm|].
      injection Hc as <-. tauto.
  - split.
    + intros [[Hr _] ->]. split; [exact Hr|]. left. now exists msg.
    + intros [Hr [(m & Hm & ->)|(c & Hc & _)]]; [|discriminate Hc].
      injection Hm as <-. tauto.
Qed.

End ValidatorFacts.

Section PipelineFacts.

Variable clock : Clock.
Variable search : string -> result (list RawItem).
Variable probe : string -> ProbeResult.

(** The catalog file can be read: [json.load] does not raise. *)
Definition readable (st : Store) : Prop :=
  forall err, tools_json st <> FileInvalid err.

(** The run failed in discovery or in the merge, with message [e]. *)
Definition fatal_failure (max_results : Z) (st : Store) (e : string) : Prop :=
  scout_github clock search max_results = Raise e \/
  exists discovered,
    scout_github clock search max_results = Ok discovered /\
    merge_loaded (load_existing st) discovered = Raise e.

(** The signal document of a failed run. *)
Definition error_document (e : string) : SignalsDoc :=
  {| generated_at_utc := now_utc_iso clock; signals := [ERROR e]; broken_links := [] |}.

Lemma main_readable (sha : option string) (max_results : Z) (st : Store) :
  readable st ->
  main clock search probe sha max_results st
  = main_try clock search probe sha max_results st.
Proof.
  unfold readable, main. destruct (tools_json st) as [| | |err]; try reflexivity.
  intros H. now destruct (H err).
Qed.

Lemma run_pipeline_fatal (max_results : Z) (st : Store) (e : string) :
  fatal_failure max_results st e ->
  run_pipeline clock search probe max_results (load_existing st) = Raise e.
Proof.
  unfold run_pipeline. intros [Hs|(d & Hs & Hm)]; rewrite Hs; simpl; [reflexivity|].
  now rewrite Hm.
Qed.

(** A pipeline that returned went through discovery and merge. *)
Lemma run_pipeline_returned (max_results : Z) (existing : list CatalogEntry)
    (discovered : list ToolRecord) (m : list ToolRecord * Z * list ToolRecord)
    (broken : list BrokenLink) :
  run_pipeline clock search probe max_results existing = Ok (discovered, m, broken) ->
  scout_github clock search max_results = Ok discovered /\
  merge_loaded existing discovered = Ok m /\
  broken = validate_links probe (firstn 80 (merged_of m)) [].
Proof.
  unfold run_pipeline.
  destruct (scout_github clock search max_results) as [d|e]; simpl; [|discriminate].
  destruct (merge_loaded existing d) as [m'|e] eqn:Em; simpl; [|discriminate].
  intros H. injection H as <- <- <-. now repeat split.
Qed.

(** A run returns 0 only from the end of the [try] block. *)
Lemma main_returned_0 (sha : option string) (max_results : Z) (st : Store) :
  exit_code (main clock search probe sha max_results st) = 0%Z ->
  readable st /\
  exists discovered m broken,
    run_pipeline clock search probe max_results (load_existing st)
    = Ok (discovered, m, broken).
Proof.
  unfold main, readable.
  destruct (tools_json st) as [| | |err] eqn:Et; try (simpl; discriminate);
    intros H0; (split; [discriminate|]);
    unfold main_try in H0; cbv zeta in H0;
    destruct (run_pipeline clock search probe max_results (load_existing st))
      as [[[d m] b]|e]; simpl in H0; try discriminate H0; eauto.
Qed.

End PipelineFacts.

Section ProbeIndependence.

Variable clock : Clock.
Variable search : string -> result (list RawItem).
Variable probe1 probe2 : string -> ProbeResult.
Variable sha : option string.

(** Which branch a run takes, and all it writes but the broken links,
    is the same under two probes. *)
Lemma main_try_probe_independent (max_results : Z) (st : Store) :
  exit_code (main_try clock search probe1 sha max_results st)
    = exit_code (main_try clock search probe2 sha max_results st) /\
  tools_json (store (main_try clock search probe1 sha max_results st))
    = tools_json (store (main_try clock search probe2 sha max_results st)) /\
  meta_json (store (main_try clock search probe1 sha max_results st))
    = meta_json (store (main_try clock search probe2 sha max_results st)) /\
  option_map signals (signals_json (store (main_try clock search probe1 sha max_results st)))
    = option_map signals
        (signals_json (store (main_try clock search probe2 sha max_results st))).
Proof.
  unfold main_try, run_pipeline. cbv zeta.
  destruct (scout_github clock search max_results) as [d|e]; simpl; [|now repeat split].
  destruct (merge_loaded (load_existing st) d) as [m|e]; simpl; now repeat split.
Qed.

End ProbeIndependence.

(** C9: when the catalog file was read and discovery or the merge
    raises, the run leaves the catalog document (and the run metadata) as
    they were, writes a signal document whose only signal is the ERROR
    entry with the message and whose broken_links are empty, and
    returns 1.  What the probes do never decides this: under any two
    probes a run has the same exit code and writes the same catalog,
    metadata and signals.  A run that returns 0 went through discovery and
    merge, writes the merged catalog and no ERROR entry, and lists in
    broken_links exactly the first links of the first 80 records whose
    probe raised (with the message) or answered with a status outside
    200..399 (with the status).  A run that does not return 0 leaves
    catalog and metadata untouched. *)
Theorem main_fatal_failure_and_probe_failures :
  (forall clock search probe sha max_results st e,
     readable st ->
     fatal_failure clock search max_results st e ->
     tools_json (store (main clock search probe sha max_results st)) = tools_json st /\
     meta_json (store (main clock search probe sha max_results st)) = meta_json st /\
     signals_json (store (main clock search probe sha max_results st))
       = Some (error_document clock e) /\
     exit_code (main clock search probe sha max_results st) = 1%Z) /\
  (forall clock search probe1 probe2 sha max_results st,
     exit_code (main clock search probe1 sha max_results st)
       = exit_code (main clock search probe2 sha max_results st) /\
     tools_json (store (main clock search probe1 sha max_results st))
       = tools_json (store (main clock search probe2 sha max_results st)) /\
     meta_json (store (main clock search probe1 sha max_results st))
       = meta_json (store (main clock search probe2 sha max_results st)) /\
     option_map signals (signals_json (store (main clock search probe1 sha max_results st)))
       = option_map signals
           (signals_json (store (main clock search probe2 sha max_results st)))) /\
  (forall clock search probe sha max_results st,
     exit_code (main clock search probe sha max_results st) = 0%Z ->
     exists discovered m doc,
       scout_github clock search max_results = Ok discovered /\
       merge_loaded (load_existing st) discovered = Ok m /\
       tools_json (store (main clock search probe sha max_results st))
         = FileList (map EntryObject (merged_of m)) /\
       signals_json (store (main clock search probe sha max_results st)) = Some doc /\
       (forall e, ~ In (ERROR e) (signals doc)) /\
       (forall b, In b (broken_links doc) <->
          exists t link rest,
            In t (firstn 80 (merged_of m)) /\ EvidenceLinks t = link :: rest /\
            reported probe t link b)) /\
  (forall clock search probe sha max_results st,
     exit_code (main clock search probe sha max_results st) <> 0%Z ->
     exit_code (main clock search probe sha max_results st) = 1%Z /\
     tools_json (store (main clock search probe sha max_results st)) = tools_json st /\
     meta_json (store (main clock search probe sha max_results st)) = meta_json st).
Proof.
  split; [|split; [|split]].
  - intros clock search probe sha max_results st e Hread Hf.
    rewrite (main_readable clock search probe sha max_results st Hread).
    unfold main_try. cbv zeta.
    rewrite (run_pipeline_fatal clock search probe max_results st e Hf).
    repeat split.
  - intros clock search probe1 probe2 sha max_results st. unfold main.
    destruct (tools_json st) eqn:Et;
      first [apply main_try_probe_independent | now repeat split].
  - intros clock search probe sha max_results st H0.
    destruct (main_returned_0 clock search probe sha max_results st H0)
      as (Hread & d & m & b & Hrun).
    destruct (run_pipeline_returned clock search probe _ _ _ _ _ Hrun) as (Hs & Hm & ->).
    rewrite (main_readable clock search probe sha max_results st Hread).
    unfold main_try. cbv zeta. rewrite Hrun.
    cbn [store tools_json signals_json].
    exists d, m. eexists. split; [exact Hs|]. split; [exact Hm|].
    split; [reflexivity|]. split; [reflexivity|]. cbn [signals broken_links]. split.
    + intros e Hin. apply in_map_iff in Hin as (x & Hx & _). discriminate Hx.
    + intros b. rewrite validate_links_In. split.
      * intros [[]|(t & link & Hin & Hfail)].
        destruct (proj1 (probe_failed_reported probe t link b) Hfail)
          as [[rest Hrest] Hrep].
        now exists t, link, rest.
      * intros (t & link & rest & Hin & Hrest & Hrep). right. exists t, link.
        split; [exact Hin|]. apply (proj2 (probe_failed_reported probe t link b)).
        split; [now exists rest|exact Hrep].
  - intros clock search probe sha max_results st Hne. unfold main in *.
    destruct (tools_json st) eqn:Et; try (rewrite Et; now repeat split);
      unfold main_try in *; cbv zeta in *;
      destruct (run_pipeline clock search probe max_results (load_existing st))
        as [[[d m] b]|e]; simpl in *; try (now destruct Hne); now repeat split.
Qed.

(** Two stores to run on: no catalog yet, and a catalog file whose second
    element is a number. *)
Definition empty_store : Store :=
  {| tools_json := FileAbsent; meta_json := None; signals_json := None |}.

Definition corrupt_store : Store :=
  {| tools_json := FileList [EntryObject (bare_record (Some "Alpha") "");
                             EntryOther "'int' object has no attribute 'get'"];
     meta_json := None; signals_json := None |}.

(** Every link answers 404. *)
Definition probe_404 : string -> ProbeResult := fun _ => Responded 404.

Lemma EntryObject_inj_list (l1 l2 : list ToolRecord) :
  map EntryObject l1 = map EntryObject l2 -> l1 = l2.
Proof.
  revert l2. induction l1 as [|a l1 IH]; intros [|b l2]; simpl; intros H;
    try discriminate H; [reflexivity|].
  injection H as -> H. f_equal. now apply IH.
Qed.

(** C9 on four runs: the search provider is down; the catalog file makes
    the merge raise; every probe times out, and the run returns 0 with
    the failure listed; every probe answers 404, and the run returns 0
    with the status listed. *)
Lemma main_fatal_failure_and_probe_failures_witness :
  (tools_json (store (main sample_clock search_down probe_down None 60 empty_store))
     = FileAbsent /\
   signals_json (store (main sample_clock search_down probe_down None 60 empty_store))
     = Some (error_document sample_clock "HTTP Error 403: rate limit exceeded") /\
   exit_code (main sample_clock search_down probe_down None 60 empty_store) = 1%Z) /\
  (tools_json (store (main sample_clock search_one probe_down None 60 corrupt_store))
     = tools_json corrupt_store /\
   exit_code (main sample_clock search_one probe_down None 60 corrupt_store) = 1%Z) /\
  (exists doc,
     signals_json (store (main sample_clock search_one probe_down None 60 empty_store))
       = Some doc /\
     In {| bl_tool := Some "zeta"; bl_link := "https://example.org/zeta";
           bl_info := "timed out" |} (broken_links doc)) /\
  (exists doc,
     signals_json (store (main sample_clock search_one probe_404 None 60 empty_store))
       = Some doc /\
     In {| bl_tool := Some "zeta"; bl_link := "https://example.org/zeta";
           bl_info := "404" |} (broken_links doc)).
Proof.
  assert (Hread : readable empty_store) by (intros err; discriminate).
  assert (Hscout : scout_github sample_clock search_one 60
                   = Ok [build_candidate sample_clock "embedded rtos tool"
                           (sample_item "zeta" "https://example.org/zeta")])
    by (vm_compute; reflexivity).
  assert (Hrec : forall probe b,
            reported probe
              (build_candidate sample_clock "embedded rtos tool"
                 (sample_item "zeta" "https://example.org/zeta"))
              "https://example.org/zeta" b ->
            exit_code (main sample_clock search_one probe None 60 empty_store) = 0%Z ->
            exists doc,
              signals_json (store (main sample_clock search_one probe None 60 empty_store))
                = Some doc /\ In b (broken_links doc)).
  { intros probe b Hrep H0.
    destruct (proj1 (proj2 (proj2 main_fatal_failure_and_probe_failures))
                sample_clock search_one probe None 60%Z empty_store H0)
      as (d & m & doc & Hs & Hm & _ & Hdoc & _ & Hb).
    exists doc. split; [exact Hdoc|]. apply Hb.
    rewrite Hscout in Hs. injection Hs as <-.
    assert (Hmerged : merged_of m
                      = [build_candidate sample_clock "embedded rtos tool"
                           (sample_item "zeta" "https://example.org/zeta")]).
    { vm_compute in Hm. injection Hm as <-. vm_compute. reflexivity. }
    rewrite Hmerged. eexists _, _, _. split; [now left|]. split; [reflexivity|exact Hrep]. }
  split; [|split; [|split]].
  - destruct (proj1 main_fatal_failure_and_probe_failures
                sample_clock search_down probe_down None 60%Z empty_store
                "HTTP Error 403: rate limit exceeded" Hread) as (Ht & _ & Hs & He).
    + left. reflexivity.
    + exact (conj Ht (conj Hs He)).
  - destruct (proj1 main_fatal_failure_and_probe_failures
                sample_clock search_one probe_down None 60%Z corrupt_store
                "'int' object has no attribute 'get'") as (Ht & _ & _ & He).
    + intros err. discriminate.
    + right. eexists. split; vm_compute; reflexivity.
    + exact (conj Ht He).
  - apply Hrec; [|vm_compute; reflexivity].
    left. exists "timed out". now split.
  - apply Hrec; [|vm_compute; reflexivity].
    right. exists 404%Z. split; [reflexivity|]. split; [lia|reflexivity].
Defined.

(** A catalog file that cannot be read ends the run before the [try]:
    nothing is written, no signal document either, and the status is 1. *)
Lemma main_unreadable_catalog (clock : Clock)
    (search : string -> result (list RawItem)) (probe : string -> ProbeResult)
    (sha : option string) (max_results : Z) (st : Store) (err : string) :
  tools_json st = FileInvalid err ->
  store (main clock search probe sha max_results st) = st /\
  exit_code (main clock search probe sha max_results st) = 1%Z /\
  stderr (main clock search probe sha max_results st) = [err].
Proof. unfold main. intros ->. now repeat split. Qed.

Example main_probe_failure_recorded :
  option_map broken_links
    (signals_json (store (main sample_clock search_one probe_down None 60 empty_store)))
  = Some [ {| bl_tool := Some "zeta"; bl_link := "https://example.org/zeta";
              bl_info := "timed out" |} ].
Proof. vm_compute. reflexivity. Qed.

(** * Further properties of the code *)

(** ** Normal forms of names *)

Section NormalForm.

Lemma is_space_lower (c : ascii) : is_space (lower_ascii c) = is_space c.
Proof. destruct c as [[] [] [] [] [] [] [] []]; reflexivity. Qed.

Lemma lower_ascii_idem (c : ascii) : lower_ascii (lower_ascii c) = lower_ascii c.
Proof. destruct c as [[] [] [] [] [] [] [] []]; reflexivity. Qed.

Lemma lower_idem (s : string) : lower (lower s) = lower s.
Proof.
  induction s as [|c s IH]; simpl; [reflexivity|].
  now rewrite lower_ascii_idem, IH.
Qed.

Lemma lower_app (s1 s2 : string) : lower (s1 +:+ s2) = lower s1 +:+ lower s2.
Proof.
  induction s1 as [|c s1 IH]; [reflexivity|].
  rewrite append_cons. simpl. rewrite IH. now rewrite append_cons.
Qed.

Lemma lower_empty (s : string) : lower s = EmptyString <-> s = EmptyString.
Proof. destruct s; simpl; split; congruence. Qed.

Lemma lstrip_lower (s : string) : lstrip (lower s) = lower (lstrip s).
Proof.
  induction s as [|c s IH]; simpl; [reflexivity|].
  rewrite is_space_lower. destruct (is_space c); [exact IH|reflexivity].
Qed.

Lemma rstrip_lower (s : string) : rstrip (lower s) = lower (rstrip s).
Proof.
  induction s as [|c s IH]; simpl; [reflexivity|].
  rewrite IH, is_space_lower.
  destruct (rstrip s) as [|d r]; simpl; [|reflexivity].
  destruct (is_space c); reflexivity.
Qed.

(** Lowering and stripping commute. *)
Lemma strip_lower (s : string) : strip (lower s) = lower (strip s).
Proof. unfold strip. now rewrite lstrip_lower, rstrip_lower. Qed.

(** What it means for [String c t] to have no trailing blank. *)
Lemma rstrip_fixed_cons (c : ascii) (t : string) :
  rstrip (String c t) = String c t ->
  (t = EmptyString /\ is_space c = false) \/ (t <> EmptyString /\ rstrip t = t).
Proof.
  simpl. destruct (rstrip t) as [|d r] eqn:E.
  - destruct (is_space c); [discriminate|].
    intros H. injection H as <-. now left.
  - intros H. injection H as <-. right. split; [discriminate|reflexivity].
Qed.

Lemma rstrip_idem (s : string) : rstrip (rstrip s) = rstrip s.
Proof.
  induction s as [|c s IH]; simpl; [reflexivity|].
  destruct (rstrip s) as [|d r] eqn:E.
  - destruct (is_space c) eqn:Ec; simpl; [reflexivity|]. now rewrite Ec.
  - simpl in *. now rewrite IH.
Qed.

Lemma lstrip_idem (s : string) : lstrip (lstrip s) = lstrip s.
Proof.
  induction s as [|c s IH]; simpl; [reflexivity|].
  destruct (is_space c) eqn:Ec; [exact IH|]. simpl. now rewrite Ec.
Qed.

(** Dropping trailing blanks does not bring a blank to the front. *)
Lemma lstrip_rstrip (s : string) : lstrip s = s -> lstrip (rstrip s) = rstrip s.
Proof.
  destruct s as [|c s]; [reflexivity|]. simpl.
  destruct (is_space c) eqn:Ec.
  - intros H. exfalso. clear Ec.
    assert (Hlen : forall t, (String.length (lstrip t) <= String.length t)%nat).
    { induction t as [|d t IHt]; simpl; [lia|]. destruct (is_space d); simpl; lia. }
    specialize (Hlen s). rewrite H in Hlen. simpl in Hlen. lia.
  - intros _. destruct (rstrip s); simpl; now rewrite Ec.
Qed.

Lemma strip_idem (s : string) : strip (strip s) = strip s.
Proof.
  unfold strip. rewrite (lstrip_rstrip (lstrip s)) by apply lstrip_idem.
  apply rstrip_idem.
Qed.

(** A name in normal form: after a blank (or at the start) comes a
    character that is no blank, every blank is the space character, the
    last character is no blank, and no letter is upper case. *)
Fixpoint canon_from (after_blank : bool) (s : string) : bool :=
  match s with
  | EmptyString => negb after_blank
  | String c s' =>
      if is_space c
      then Ascii.eqb c " "%char && negb after_blank && canon_from true s'
      else Ascii.eqb (lower_ascii c) c && canon_from false s'
  end.

Definition canonical (s : string) : bool :=
  match s with
  | EmptyString => true
  | _ => canon_from true s
  end.

Lemma canon_from_head (b : bool) (c : ascii) (s : string) :
  is_space c = false -> canon_from b (String c s) = canon_from false (String c s).
Proof. intros Hc. simpl. now rewrite Hc. Qed.

Lemma collapse_canon (t : string) :
  rstrip t = t -> t <> EmptyString ->
  forall b, canon_from b (collapse_ws b (lower t)) = true.
Proof.
  induction t as [|c t IH]; [congruence|]. intros Hr _ b.
  apply rstrip_fixed_cons in Hr as [[-> Hc]|[Hne Hr]].
  - simpl. rewrite is_space_lower, Hc. simpl. rewrite is_space_lower, Hc.
    now rewrite lower_ascii_idem, Ascii.eqb_refl.
  - cbn [lower collapse_ws]. rewrite is_space_lower.
    destruct (is_space c) eqn:Hc.
    + destruct b; [now apply IH|].
      cbn [canon_from]. change (is_space " "%char) with true. cbn.
      now apply IH.
    + cbn [canon_from]. rewrite is_space_lower, Hc, lower_ascii_idem, Ascii.eqb_refl.
      now apply IH.
Qed.

Lemma normalize_name_canonical (s : string) : canonical (normalize_name s) = true.
Proof.
  unfold normalize_name.
  assert (Hl : lstrip (strip s) = strip s).
  { unfold strip. apply lstrip_rstrip, lstrip_idem. }
  assert (Hr : rstrip (strip s) = strip s) by (unfold strip; apply rstrip_idem).
  destruct (strip s) as [|c t] eqn:E; [reflexivity|].
  assert (Hc : is_space c = false).
  { simpl in Hl. destruct (is_space c) eqn:Ec; [|reflexivity]. exfalso.
    assert (Hlen : forall u, (String.length (lstrip u) <= String.length u)%nat).
    { induction u as [|d u IHu]; simpl; [lia|]. destruct (is_space d); simpl; lia. }
    specialize (Hlen t). rewrite Hl in Hlen. simpl in Hlen. lia. }
  pose proof (collapse_canon (String c t) Hr ltac:(discriminate) false) as H.
  cbn [lower collapse_ws] in *. rewrite is_space_lower, Hc in *.
  unfold canonical. rewrite canon_from_head; [exact H|]. now rewrite is_space_lower.
Qed.

Lemma canon_collapse (s : string) (b : bool) :
  canon_from b s = true -> collapse_ws b s = s.
Proof.
  revert b. induction s as [|c s IH]; intros b; simpl; [reflexivity|].
  destruct (is_space c) eqn:Hc.
  - rewrite !andb_true_iff. intros [[Heq Hb] Hs].
    apply Ascii.eqb_eq in Heq. apply negb_true_iff in Hb. subst b c.
    now rewrite (IH true Hs).
  - rewrite andb_true_iff. intros [_ Hs]. now rewrite (IH false Hs).
Qed.

Lemma canon_lower (s : string) (b : bool) : canon_from b s = true -> lower s = s.
Proof.
  revert b. induction s as [|c s IH]; intros b; simpl; [reflexivity|].
  destruct (is_space c) eqn:Hc.
  - rewrite !andb_true_iff. intros [[Heq _] Hs].
    apply Ascii.eqb_eq in Heq. subst c. now rewrite (IH true Hs).
  - rewrite andb_true_iff. intros [Heq Hs].
    apply Ascii.eqb_eq in Heq. now rewrite Heq, (IH false Hs).
Qed.

Lemma canon_rstrip (s : string) (b : bool) :
  canon_from b s = true -> rstrip s = s /\ (s = EmptyString -> b = false).
Proof.
  revert b. induction s as [|c s IH]; intros b; simpl.
  - intros Hb. apply negb_true_iff in Hb. now split.
  - intros H. split; [|discriminate].
    assert (Hs : canon_from (is_space c) s = true).
    { destruct (is_space c); rewrite ?andb_true_iff in H; tauto. }
    destruct (IH _ Hs) as [Hr He]. rewrite Hr.
    destruct s as [|d s]; [|reflexivity]. now rewrite (He eq_refl).
Qed.

Lemma canonical_fixed (s : string) : canonical s = true -> normalize_name s = s.
Proof.
  destruct s as [|c s]; [reflexivity|]. unfold canonical. intros H.
  assert (Hc : is_space c = false).
  { simpl in H. destruct (is_space c); [|reflexivity].
    rewrite !andb_true_iff in H. destruct H as [[_ H] _]. discriminate H. }
  unfold normalize_name, strip.
  assert (Hl : lstrip (String c s) = String c s) by (simpl; now rewrite Hc).
  rewrite Hl, (proj1 (canon_rstrip _ _ H)), (canon_lower _ _ H).
  apply canon_collapse. now rewrite <- (canon_from_head true).
Qed.

(** Names of ASCII characters only: on these [str.lower] folds the
    letters A-Z and nothing else, and the blanks of [str.strip] and of
    [\s] are the ones of [is_space]. *)
Definition is_ascii (c : ascii) : bool :=
  match c with Ascii _ _ _ _ _ _ _ b7 => negb b7 end.

Fixpoint ascii_text (s : string) : bool :=
  match s with
  | EmptyString => true
  | String c s' => is_ascii c && ascii_text s'
  end.

Lemma lower_ascii_is_ascii (c : ascii) : is_ascii (lower_ascii c) = is_ascii c.
Proof. destruct c as [[] [] [] [] [] [] [] []]; reflexivity. Qed.

Lemma ascii_text_lower (s : string) : ascii_text (lower s) = ascii_text s.
Proof.
  induction s as [|c s IH]; simpl; [reflexivity|].
  now rewrite lower_ascii_is_ascii, IH.
Qed.

Lemma ascii_text_lstrip (s : string) :
  ascii_text s = true -> ascii_text (lstrip s) = true.
Proof.
  induction s as [|c s IH]; simpl; [reflexivity|].
  destruct (is_space c); [|trivial].
  rewrite andb_true_iff. intros [_ Hs]. now apply IH.
Qed.

Lemma ascii_text_rstrip (s : string) :
  ascii_text s = true -> ascii_text (rstrip s) = true.
Proof.
  induction s as [|c s IH]; simpl; [reflexivity|].
  rewrite andb_true_iff. intros [Hc Hs]. specialize (IH Hs).
  destruct (rstrip s) as [|d r].
  - destruct (is_space c); simpl; [reflexivity|]. now rewrite Hc.
  - cbn [ascii_text] in *. now rewrite Hc, IH.
Qed.

Lemma ascii_text_collapse (s : string) (b : bool) :
  ascii_text s = true -> ascii_text (collapse_ws b s) = true.
Proof.
  revert b. induction s as [|c s IH]; intros b; simpl; [reflexivity|].
  rewrite andb_true_iff. intros [Hc Hs].
  destruct (is_space c); [destruct b|]; simpl; rewrite ?Hc; now apply IH.
Qed.

Lemma normalize_name_ascii (s : string) :
  ascii_text s = true -> ascii_text (normalize_name s) = true.
Proof.
  intros H. unfold normalize_name, strip.
  apply ascii_text_collapse. rewrite ascii_text_lower.
  now apply ascii_text_rstrip, ascii_text_lstrip.
Qed.

End NormalForm.

(** X2: on a name of ASCII characters [normalize_name] returns an ASCII
    name in normal form (no blank at either end, single spaces as the
    only blanks, no upper-case letter), leaves exactly such names as they
    are, and so is idempotent. *)
Theorem normalize_name_normal_form (s : string) :
  ascii_text s = true ->
  ascii_text (normalize_name s) = true /\
  canonical (normalize_name s) = true /\
  (normalize_name s = s <-> canonical s = true) /\
  normalize_name (normalize_name s) = normalize_name s.
Proof.
  intros Hascii. split; [now apply normalize_name_ascii|].
  split; [apply normalize_name_canonical|]. split.
  - split; [|apply canonical_fixed].
    intros H. rewrite <- H. apply normalize_name_canonical.
  - apply canonical_fixed, normalize_name_canonical.
Qed.

(** X2 on a name with capitals, margins and a run of blanks. *)
Lemma normalize_name_normal_form_witness :
  canonical (normalize_name "  Foo   Bar ") = true /\
  (normalize_name "foo bar" = "foo bar" <-> canonical "foo bar" = true) /\
  normalize_name (normalize_name "  Foo   Bar ") = normalize_name "  Foo   Bar ".
Proof.
  destruct (normalize_name_normal_form "  Foo   Bar " eq_refl) as (_ & Hc & _ & Hi).
  destruct (normalize_name_normal_form "foo bar" eq_refl) as (_ & _ & Hf & _).
  exact (conj Hc (conj Hf Hi)).
Defined.

(** A string of blanks only. *)
Fixpoint all_blank (s : string) : bool :=
  match s with
  | EmptyString => true
  | String c s' => is_space c && all_blank s'
  end.

Section Margins.

Lemma lstrip_blank_app (ws s : string) :
  all_blank ws = true -> lstrip (ws +:+ s) = lstrip s.
Proof.
  induction ws as [|c ws IH]; [reflexivity|]. simpl.
  rewrite andb_true_iff. intros [Hc Hws]. rewrite ?append_cons; simpl.
  rewrite Hc. now apply IH.
Qed.

Lemma rstrip_blank (ws : string) : all_blank ws = true -> rstrip ws = EmptyString.
Proof.
  induction ws as [|c ws IH]; [reflexivity|]. simpl.
  rewrite andb_true_iff. intros [Hc Hws]. now rewrite (IH Hws), Hc.
Qed.

Lemma rstrip_app_blank (s ws : string) :
  all_blank ws = true -> rstrip (s +:+ ws) = rstrip s.
Proof.
  intros Hws. induction s as [|c s IH].
  - simpl. now apply rstrip_blank.
  - rewrite ?append_cons; simpl. now rewrite IH.
Qed.

Lemma lstrip_all_blank (s : string) :
  lstrip s = EmptyString -> all_blank s = true.
Proof.
  induction s as [|c s IH]; simpl; [reflexivity|].
  destruct (is_space c); [exact IH|discriminate].
Qed.

Lemma lstrip_app (s t : string) :
  lstrip s <> EmptyString -> lstrip (s +:+ t) = lstrip s +:+ t.
Proof.
  induction s as [|c s IH]; simpl; [congruence|].
  rewrite ?append_cons; simpl. destruct (is_space c); [exact IH|reflexivity].
Qed.

Lemma all_blank_app (s t : string) :
  all_blank s = true -> all_blank t = true -> all_blank (s +:+ t) = true.
Proof.
  induction s as [|c s IH]; simpl; [tauto|].
  rewrite ?append_cons; simpl. rewrite !andb_true_iff. tauto.
Qed.

Lemma strip_margins (ws1 s ws2 : string) :
  all_blank ws1 = true -> all_blank ws2 = true ->
  strip (ws1 +:+ s +:+ ws2) = strip s.
Proof.
  intros H1 H2. unfold strip. rewrite (lstrip_blank_app _ _ H1).
  destruct (lstrip s) as [|c r] eqn:E.
  - rewrite (lstrip_blank_app s ws2 (lstrip_all_blank _ E)).
    assert (Hb : all_blank (lstrip ws2) = true).
    { clear -H2. induction ws2 as [|d w IH]; simpl in *; [reflexivity|].
      apply andb_true_iff in H2 as [Hd Hw]. rewrite Hd. now apply IH. }
    now rewrite (rstrip_blank _ Hb).
  - rewrite lstrip_app by (rewrite E; discriminate).
    rewrite E. now apply rstrip_app_blank.
Qed.

End Margins.

(** X3: the key of a name does not depend on its case nor on the blanks
    around it. *)
Theorem normalize_name_case_and_margin (s : string) :
  normalize_name (lower s) = normalize_name s /\
  normalize_name (strip s) = normalize_name s /\
  (forall ws1 ws2, all_blank ws1 = true -> all_blank ws2 = true ->
     normalize_name (ws1 +:+ s +:+ ws2) = normalize_name s).
Proof.
  unfold normalize_name. split; [|split].
  - now rewrite strip_lower, lower_idem.
  - now rewrite strip_idem.
  - intros ws1 ws2 H1 H2. now rewrite strip_margins.
Qed.

(** X3 on a name between a tab and two spaces. *)
Lemma normalize_name_case_and_margin_witness :
  normalize_name (String "009"%char "" +:+ "Foo Bar" +:+ "  ") = normalize_name "Foo Bar".
Proof.
  apply (proj2 (proj2 (normalize_name_case_and_margin "Foo Bar"))); reflexivity.
Defined.

Example normalize_tabs :
  normalize_name (String "009"%char " Foo" +:+ String "010"%char "  BAR ") = "foo bar".
Proof. reflexivity. Qed.

(** ** What a merge inserts and what it keeps *)

(** The record has a key that is not empty: [k] passes the test [not k]. *)
Definition has_key (c : ToolRecord) : bool := truthy (record_key c).

(** The keys of the named records of a catalog. *)
Definition existing_keys (existing : list ToolRecord) : gset string :=
  list_to_set (map record_key (List.filter name_truthy existing)).

Section MergeShape.

Definition key_set (idx : index) : gset string := list_to_set (idx_keys idx).

Lemma key_set_In (k : string) (idx : index) : k ∈ key_set idx <-> In k (idx_keys idx).
Proof. unfold key_set. now rewrite elem_of_list_to_set, list_elem_of_In. Qed.

Lemma key_set_snoc (k : string) (v : ToolRecord) (idx : index) :
  key_set (idx ++ [(k, v)]) = {[ k ]} ∪ key_set idx.
Proof.
  apply set_eq. intros x. rewrite elem_of_union, elem_of_singleton, !key_set_In.
  unfold idx_keys. rewrite map_app, in_app_iff. simpl. intuition.
Qed.

Lemma key_set_build_index (existing : list ToolRecord) :
  key_set (build_index existing) = existing_keys existing.
Proof.
  apply set_eq. intros k. rewrite key_set_In. unfold build_index, existing_keys.
  rewrite index_from_keys_In, elem_of_list_to_set, list_elem_of_In, in_map_iff. split.
  - intros [[]|(t & Hin & Ht & Hk)]. exists t. split; [assumption|].
    apply List.filter_In. now split.
  - intros (t & Hk & Hin). apply List.filter_In in Hin as [Hin Ht].
    right. now exists t.
Qed.

(** The loop appends to the index, in batch order, the first record of
    every non-empty key that the index does not hold. *)
Lemma merge_loop_keep_first (new : list ToolRecord) (idx : index) (n : Z)
    (items : list ToolRecord) :
  merge_loop new idx n items =
  (idx ++ map (fun c => (record_key c, c))
            (keep_first (key_set idx) (List.filter has_key new)),
   (n + Z.of_nat (List.length (keep_first (key_set idx) (List.filter has_key new))))%Z,
   items ++ keep_first (key_set idx) (List.filter has_key new)).
Proof.
  revert idx n items. induction new as [|c rest IH]; intros idx n items; simpl.
  - now rewrite !app_nil_r, Z.add_0_r.
  - unfold has_key at 1 4 7. destruct (truthy (record_key c)) eqn:Ek; simpl.
    + destruct (idx_mem (record_key c) idx) eqn:Em.
      * apply idx_mem_In, key_set_In in Em.
        destruct (decide (record_key c ∈ key_set idx)); [apply IH|contradiction].
      * apply idx_mem_notin in Em.
        destruct (decide (record_key c ∈ key_set idx)) as [Hin|_];
          [apply key_set_In in Hin; contradiction|].
        rewrite (idx_set_fresh _ _ _ Em), IH, key_set_snoc. simpl.
        rewrite <- !app_assoc. simpl. do 2 f_equal. lia.
    + apply IH.
Qed.

Lemma keep_first_covers (seen : gset string) (l : list ToolRecord) (c : ToolRecord) :
  In c l ->
  record_key c ∈ seen \/ In (record_key c) (map record_key (keep_first seen l)).
Proof.
  revert seen. induction l as [|d rest IH]; simpl; intros seen Hin; [contradiction|].
  destruct (decide (record_key d ∈ seen)) as [Hd|Hd].
  - destruct Hin as [<-|Hin]; [now left|now apply IH].
  - simpl. destruct Hin as [<-|Hin]; [right; now left|].
    destruct (IH ({[ (record_key d) ]} ∪ seen) Hin) as [Hs|Hk]; [|tauto].
    apply elem_of_union in Hs as [Hs|Hs]; [|tauto].
    apply elem_of_singleton in Hs. right. left. congruence.
Qed.

(** A batch whose non-empty keys are all in the index changes nothing. *)
Lemma merge_loop_nothing_new (new : list ToolRecord) (idx : index) (n : Z)
    (items : list ToolRecord) :
  (forall c, In c new -> has_key c = true -> In (record_key c) (idx_keys idx)) ->
  merge_loop new idx n items = (idx, n, items).
Proof.
  induction new as [|c l IH]; simpl; intros Hall; [reflexivity|].
  destruct (truthy (record_key c)) eqn:Ek; simpl.
  - assert (Hc : idx_mem (record_key c) idx = true).
    { apply idx_mem_In, Hall; [now left|exact Ek]. }
    rewrite Hc. apply IH. intros c' Hc'. apply Hall. now right.
  - apply IH. intros c' Hc'. apply Hall. now right.
Qed.

Lemma merge_tools_shape (existing new : list ToolRecord) :
  merge_tools existing new =
  (sort_by_name (idx_values (build_index existing)
                 ++ keep_first (existing_keys existing) (List.filter has_key new)),
   Z.of_nat (List.length (keep_first (existing_keys existing) (List.filter has_key new))),
   keep_first (existing_keys existing) (List.filter has_key new)).
Proof.
  rewrite merge_tools_unfold, merge_loop_keep_first, key_set_build_index. simpl.
  unfold idx_values. rewrite map_app, map_map. simpl. now rewrite map_id.
Qed.

(** Merging the batch once more finds nothing to insert. *)
Lemma merge_tools_again (existing new : list ToolRecord) :
  merge_tools (merged_of (merge_tools existing new)) new
  = (merged_of (merge_tools existing new), 0%Z, []).
Proof.
  destruct (merge_tools_in_order existing new) as (Hnamed & Hnd & Hsorted).
  set (m := merged_of (merge_tools existing new)) in *.
  assert (Hidx : build_index m = map (fun r => (record_key r, r)) m).
  { unfold build_index. now rewrite index_from_distinct. }
  rewrite merge_tools_unfold, Hidx, merge_loop_nothing_new.
  - simpl. unfold idx_values. rewrite map_map. simpl. rewrite map_id.
    now rewrite sort_by_name_id.
  - intros c Hc Hk. unfold idx_keys. rewrite map_map. simpl.
    apply (Permutation_in (l := map record_key
             (idx_values (build_index existing)
              ++ keep_first (existing_keys existing) (List.filter has_key new)))).
    + apply Permutation_map. subst m. rewrite merge_tools_shape. unfold merged_of. simpl.
      apply sort_by_name_perm.
    + rewrite map_app, in_app_iff.
      destruct (keep_first_covers (existing_keys existing) (List.filter has_key new) c)
        as [Hs|Hin].
      * apply List.filter_In. now split.
      * left. rewrite <- key_set_build_index in Hs. apply key_set_In in Hs.
        rewrite idx_ok_values_keys; [exact Hs|]. apply index_from_ok, idx_ok_nil.
      * now right.
Qed.

End MergeShape.

(** X4: the number a merge reports is the number of inserted records;
    the inserted records are, in batch order, the first record of every
    non-empty normalized name of the batch that no named record of the
    catalog has; each of them is a record of the batch; and the merged
    catalog is made of what the empty merge keeps and of these. *)
Theorem merge_tools_inserts_first_new_names (existing new : list ToolRecord) :
  inserted_of (merge_tools existing new)
    = Z.of_nat (List.length (inserted_items_of (merge_tools existing new))) /\
  inserted_items_of (merge_tools existing new)
    = keep_first (existing_keys existing) (List.filter has_key new) /\
  (forall c, In c (inserted_items_of (merge_tools existing new)) ->
     In c new /\ has_key c = true /\
     forall e, In e existing -> name_truthy e = true -> record_key e <> record_key c) /\
  Permutation (merged_of (merge_tools existing new))
    (merged_of (merge_tools existing []) ++ inserted_items_of (merge_tools existing new)).
Proof.
  rewrite !merge_tools_shape. unfold inserted_of, inserted_items_of, merged_of. simpl.
  split; [reflexivity|]. split; [reflexivity|]. split.
  - intros c Hc. apply keep_first_keys in Hc as [Hn Hin].
    apply List.filter_In in Hin as [Hin Hk]. split; [assumption|]. split; [assumption|].
    intros e He Ht Heq. apply Hn. unfold existing_keys.
    rewrite elem_of_list_to_set, list_elem_of_In, in_map_iff.
    exists e. split; [assumption|]. apply List.filter_In. now split.
  - rewrite app_nil_r.
    rewrite <- (sort_by_name_perm (idx_values (build_index existing) ++ _)).
    apply Permutation_app_tail, sort_by_name_perm.
Qed.

(** X5: when the named records of the catalog have distinct keys, no
    record of the catalog is replaced or dropped, whatever the batch: the
    merged catalog is the catalog and the inserted records, re-ordered. *)
Theorem merge_tools_keeps_existing (existing new : list ToolRecord) :
  (forall r, In r existing -> name_truthy r = true) ->
  NoDup (map record_key existing) ->
  Permutation (merged_of (merge_tools existing new))
    (existing ++ inserted_items_of (merge_tools existing new)) /\
  (forall r, In r existing -> In r (merged_of (merge_tools existing new))).
Proof.
  intros Hnamed Hnd.
  assert (Hp : Permutation (merged_of (merge_tools existing new))
                 (existing ++ inserted_items_of (merge_tools existing new))).
  { rewrite merge_tools_shape. unfold merged_of, inserted_items_of. simpl.
    rewrite <- sort_by_name_perm. unfold build_index.
    rewrite index_from_distinct by assumption. simpl.
    unfold idx_values. rewrite map_map. simpl. now rewrite map_id. }
  split; [exact Hp|]. intros r Hr.
  apply (Permutation_in (l := existing ++ inserted_items_of (merge_tools existing new))).
  - now symmetry.
  - apply in_or_app. now left.
Qed.

(** X5 on a catalog of two records and a batch that repeats one of them. *)
Lemma merge_tools_keeps_existing_witness :
  In (bare_record (Some "beta") "old")
     (merged_of (merge_tools
        [bare_record (Some "beta") "old"; bare_record (Some "Alpha") "old"]
        [bare_record (Some "BETA") "new"; bare_record (Some "gamma") "new"])).
Proof.
  refine (proj2 (merge_tools_keeps_existing
    [bare_record (Some "beta") "old"; bare_record (Some "Alpha") "old"]
    [bare_record (Some "BETA") "new"; bare_record (Some "gamma") "new"] _ _) _ _).
  - intros r [<- | [<- | [] ] ]; reflexivity.
  - apply NoDup_ListNoDup. repeat constructor; simpl; intuition discriminate.
  - now left.
Defined.

(** X6: a merge is an idempotent upsert: merging the same batch into the
    catalog a merge returned inserts nothing and returns that catalog,
    same records in the same order; and so does any batch whose non-empty
    normalized names all occur in that catalog. *)
Theorem merge_tools_idempotent (existing new : list ToolRecord) :
  merge_tools (merged_of (merge_tools existing new)) new
    = (merged_of (merge_tools existing new), 0%Z, []) /\
  (forall batch,
     (forall c, In c batch -> has_key c = true ->
        In (record_key c) (map record_key (merged_of (merge_tools existing new)))) ->
     merge_tools (merged_of (merge_tools existing new)) batch
       = (merged_of (merge_tools existing new), 0%Z, [])).
Proof.
  split; [apply merge_tools_again|].
  intros batch Hknown.
  destruct (merge_tools_in_order existing new) as (Hnamed & Hnd & Hsorted).
  rewrite merge_tools_unfold. unfold build_index.
  rewrite index_from_distinct by assumption. simpl.
  rewrite merge_loop_nothing_new.
  - simpl. unfold idx_values. rewrite map_map. simpl. rewrite map_id.
    now rewrite sort_by_name_id.
  - intros c Hc Hk. unfold idx_keys. rewrite map_map. simpl. now apply Hknown.
Qed.

(** X6 on a batch that spells a catalog name in upper case. *)
Lemma merge_tools_idempotent_witness :
  merge_tools (merged_of (merge_tools [bare_record (Some "Alpha") "old"]
                            [bare_record (Some "beta") "new"]))
              [bare_record (Some "BETA ") "again"]
  = (merged_of (merge_tools [bare_record (Some "Alpha") "old"]
                            [bare_record (Some "beta") "new"]), 0%Z, []).
Proof.
  apply (proj2 (merge_tools_idempotent [bare_record (Some "Alpha") "old"]
                  [bare_record (Some "beta") "new"])).
  intros c [<- | [] ] _. vm_compute. auto.
Defined.

(** ** The order of the merged catalog *)

Section StrictOrder.

(** The dedup key is a function of the sort key. *)
Lemma record_key_of_sort_key (r : ToolRecord) :
  record_key r = collapse_ws false (strip (sort_key r)).
Proof.
  unfold record_key, sort_key, get_name, normalize_name, str_or.
  rewrite strip_lower. destruct (ToolName r) as [[|c s]|]; reflexivity.
Qed.

Lemma leb_neq_ltb (s1 s2 : string) :
  String.leb s1 s2 = true -> s1 <> s2 -> String.ltb s1 s2 = true.
Proof.
  unfold String.leb, String.ltb. intros Hle Hne.
  destruct (String.compare s1 s2) eqn:E; [|reflexivity|discriminate].
  now apply String.compare_eq_iff in E.
Qed.

(** Two records next to each other in name order, with different names,
    are in strict order. *)
Definition name_lt (a b : ToolRecord) : Prop :=
  String.ltb (sort_key a) (sort_key b) = true.

Lemma sorted_distinct_strict (l : list ToolRecord) :
  Sorted name_le l -> NoDup (map sort_key l) -> Sorted name_lt l.
Proof.
  induction l as [|a l IH]; intros Hs Hnd; [constructor|].
  inversion Hs as [|? ? Hl Hhd]; subst. simpl in Hnd.
  apply NoDup_cons in Hnd as [Ha Hnd]. constructor; [now apply IH|].
  destruct l as [|b l]; constructor.
  inversion Hhd as [|? ? Hab]; subst. apply leb_neq_ltb; [exact Hab|].
  intros Heq. apply Ha. simpl. rewrite Heq. apply list_elem_of_here.
Qed.

Lemma distinct_keys_distinct_names (l : list ToolRecord) :
  NoDup (map record_key l) -> NoDup (map sort_key l).
Proof.
  intros Hnd.
  rewrite (map_ext record_key (fun r => collapse_ws false (strip (sort_key r))))
    in Hnd by apply record_key_of_sort_key.
  rewrite <- (map_map sort_key (fun k => collapse_ws false (strip k))) in Hnd.
  exact (NoDup_fmap_1 _ _ Hnd).
Qed.

End StrictOrder.

(** X7: whatever the catalog and the batch, no two records of the merged
    catalog have the same lowercased name, and the merged catalog is in
    strictly ascending order of the lowercased names. *)
Theorem merged_catalog_strictly_sorted (existing new : list ToolRecord) :
  NoDup (map sort_key (merged_of (merge_tools existing new))) /\
  Sorted name_lt (merged_of (merge_tools existing new)).
Proof.
  destruct (merge_tools_in_order existing new) as (_ & Hnd & Hsorted).
  pose proof (distinct_keys_distinct_names _ Hnd) as Hn.
  split; [exact Hn|]. now apply sorted_distinct_strict.
Qed.

(** ** How the scores move with their inputs *)

Section ScoreOrder.
Local Open Scope Z_scope.

(** Records the outcome of every integer test of the goal as an order
    fact among the hypotheses. *)
Ltac order_cases :=
  repeat
    (let E := fresh "Hord" in
     match goal with
     | |- context [(?a >=? ?b)%Z] =>
         destruct (a >=? b)%Z eqn:E; rewrite Z.geb_leb in E;
         first [apply Z.leb_le in E | apply Z.leb_gt in E]
     | |- context [(?a >? ?b)%Z] =>
         destruct (a >? b)%Z eqn:E; rewrite Z.gtb_ltb in E;
         first [apply Z.ltb_lt in E | apply Z.ltb_ge in E]
     | |- context [(?a <? ?b)%Z] =>
         destruct (a <? b)%Z eqn:E;
         first [apply Z.ltb_lt in E | apply Z.ltb_ge in E]
     | |- context [(?a =? ?b)%Z] =>
         destruct (a =? b)%Z eqn:E;
         first [apply Z.eqb_eq in E | apply Z.eqb_neq in E]
     end).

Lemma age_ge_5_mono (a1 a2 : Q) :
  (a1 <= a2)%Q -> age_ge_5 a1 = true -> age_ge_5 a2 = true.
Proof.
  unfold age_ge_5. rewrite !Qle_bool_iff. intros H12 H1.
  now apply (Qle_trans _ a1).
Qed.

Lemma hits_to_score_mono (h1 h2 : Z) :
  h1 <= h2 -> hits_to_score h1 <= hits_to_score h2.
Proof. intros H. unfold hits_to_score. order_cases; lia. Qed.

(** X8: Maturity never falls when the stars or the age grow or the
    staleness shrinks; CommunitySupport never falls when the stars or the
    forks grow or the open issues shrink. *)
Theorem scores_monotone :
  (forall stars1 stars2 age1 age2 days1 days2,
     stars1 <= stars2 -> (age1 <= age2)%Q -> days2 <= days1 ->
     score_maturity stars1 age1 days1 <= score_maturity stars2 age2 days2) /\
  (forall stars1 stars2 forks1 forks2 issues1 issues2,
     stars1 <= stars2 -> forks1 <= forks2 -> issues2 <= issues1 ->
     score_community stars1 forks1 issues1 <= score_community stars2 forks2 issues2).
Proof.
  split.
  - intros stars1 stars2 age1 age2 days1 days2 Hs Ha Hd.
    unfold score_maturity, clamp.
    pose proof (age_ge_5_mono age1 age2 Ha) as Hage.
    destruct (age_ge_5 age1); [rewrite (Hage eq_refl)|destruct (age_ge_5 age2)];
      order_cases; lia.
  - intros stars1 stars2 forks1 forks2 issues1 issues2 Hs Hf Hi.
    unfold score_community, clamp. order_cases; lia.
Qed.

End ScoreOrder.

(** X8 on two repositories, the second with more stars and fresher. *)
Lemma scores_monotone_witness :
  (score_maturity 60 1 200 <= score_maturity 1200 6 10)%Z /\
  (score_community 60 10 600 <= score_community 1200 600 10)%Z.
Proof.
  split.
  - apply (proj1 scores_monotone); [lia| |lia].
    unfold Qle. simpl. lia.
  - apply (proj2 scores_monotone); lia.
Defined.

(** ** Text that grows *)

Section TextOrder.

Lemma append_assoc3 (a b c : string) : (a +:+ b) +:+ c = a +:+ (b +:+ c).
Proof.
  induction a as [|x a IH]; [reflexivity|].
  rewrite !append_cons. now rewrite IH.
Qed.

Lemma Substring_trans (k t u : string) :
  Substring k t -> Substring t u -> Substring k u.
Proof.
  intros (p1 & q1 & ->) (p2 & q2 & ->).
  exists (p2 +:+ p1), (q1 +:+ q2). now rewrite !append_assoc3.
Qed.

Lemma Substring_lower (t u : string) :
  Substring t u -> Substring (lower t) (lower u).
Proof.
  intros (p & q & ->). exists (lower p), (lower q). now rewrite !lower_app.
Qed.

Lemma Substring_middle (pre t post : string) : Substring t (pre +:+ t +:+ post).
Proof. now exists pre, post. Qed.

Lemma contains_mono (k t u : string) :
  Substring t u -> contains k t = true -> contains k u = true.
Proof.
  intros Htu Hk. apply contains_Substring. apply contains_Substring in Hk.
  now apply (Substring_trans k t u).
Qed.

Lemma any_in_mono (keys : list string) (t u : string) :
  Substring t u -> any_in keys t = true -> any_in keys u = true.
Proof.
  intros Htu. rewrite !any_in_true. intros (k & Hin & Hk).
  exists k. split; [assumption|]. now apply (Substring_trans k t u).
Qed.

Lemma count_hits_mono (keys : list string) (t u : string) :
  Substring t u -> (count_hits keys t <= count_hits keys u)%Z.
Proof.
  intros Htu. unfold count_hits. apply inj_le.
  induction keys as [|k keys IH]; simpl; [lia|].
  destruct (contains k t) eqn:E.
  - rewrite (contains_mono k t u Htu E). simpl. lia.
  - destruct (contains k u); simpl; lia.
Qed.

Lemma infer_vmodel_phases_In (text label : string) :
  phase_matches text label -> In label (infer_vmodel_phases text).
Proof.
  intros Hm. apply phases_loop_In in Hm. unfold infer_vmodel_phases. cbv zeta.
  destruct (phases_loop PHASE_KEYWORDS (lower text) []); [contradiction|exact Hm].
Qed.

End TextOrder.

(** X9: text around a text takes nothing away: with more text before and
    after, the three keyword scores and the AI value do not fall, and
    every phase that matched still is in the result. *)
Theorem more_text_never_lowers (pre t post : string) :
  (score_embedded t <= score_embedded (pre +:+ t +:+ post))%Z /\
  (score_integration t <= score_integration (pre +:+ t +:+ post))%Z /\
  (score_audit t <= score_audit (pre +:+ t +:+ post))%Z /\
  (ai_value (infer_ai_involvement t)
     <= ai_value (infer_ai_involvement (pre +:+ t +:+ post)))%Z /\
  (forall label, phase_matches t label ->
     In label (infer_vmodel_phases (pre +:+ t +:+ post))).
Proof.
  pose proof (Substring_lower _ _ (Substring_middle pre t post)) as Hsub.
  split; [|split; [|split; [|split]]].
  - apply hits_to_score_mono, count_hits_mono, Hsub.
  - apply hits_to_score_mono, count_hits_mono, Hsub.
  - apply hits_to_score_mono, count_hits_mono, Hsub.
  - unfold infer_ai_involvement. cbv zeta.
    destruct (any_in AI_HINTS_CORE (lower t)) eqn:Ec.
    + rewrite (any_in_mono _ _ _ Hsub Ec). reflexivity.
    + destruct (any_in AI_HINTS_CORE (lower (pre +:+ t +:+ post)));
        [destruct (any_in AI_HINTS_ASSISTED (lower t)); vm_compute; discriminate|].
      destruct (any_in AI_HINTS_ASSISTED (lower t)) eqn:Ea.
      * rewrite (any_in_mono _ _ _ Hsub Ea). reflexivity.
      * destruct (any_in AI_HINTS_ASSISTED (lower (pre +:+ t +:+ post)));
          vm_compute; discriminate.
  - intros label (keys & k & Hin & Hk & Hs).
    apply infer_vmodel_phases_In. exists keys, k.
    split; [assumption|]. split; [assumption|].
    now apply (Substring_trans k (lower t)).
Qed.

(** ** The shape of the phase list *)

Section PhaseShape.

Lemma filter_labels_sublist (f : string * list string -> bool)
    (table : list (string * list string)) :
  map fst (List.filter f table) `sublist_of` map fst table.
Proof.
  induction table as [|pk rest IH]; simpl; [constructor|].
  destruct (f pk); simpl; [now apply sublist_skip|now apply sublist_cons].
Qed.

Lemma phase_labels_NoDup : NoDup (map fst PHASE_KEYWORDS).
Proof. apply NoDup_ListNoDup. repeat constructor; simpl; intuition discriminate. Qed.

End PhaseShape.

(** X10: the phases of a text are labels of the table, each at most once
    and in the order of the table; there are between one and nine. *)
Theorem infer_vmodel_phases_shape (text : string) :
  infer_vmodel_phases text `sublist_of` map fst PHASE_KEYWORDS /\
  NoDup (infer_vmodel_phases text) /\
  (1 <= List.length (infer_vmodel_phases text) <= 9)%nat.
Proof.
  assert (Hsub : infer_vmodel_phases text `sublist_of` map fst PHASE_KEYWORDS).
  { unfold infer_vmodel_phases. cbv zeta. rewrite phases_loop_filter. cbn [app].
    pose proof (filter_labels_sublist (fun pk => any_in (snd pk) (lower text))
                  PHASE_KEYWORDS) as H.
    destruct (map fst (List.filter _ PHASE_KEYWORDS)) as [|p ps]; [|exact H].
    simpl. repeat (first [apply sublist_skip; apply sublist_nil_l | apply sublist_cons]). }
  split; [exact Hsub|]. split.
  - eapply sublist_NoDup; [exact phase_labels_NoDup|exact Hsub].
  - split.
    + unfold infer_vmodel_phases. cbv zeta.
      destruct (phases_loop PHASE_KEYWORDS (lower text) []); simpl; lia.
    + apply sublist_length in Hsub. simpl in Hsub. exact Hsub.
Qed.

(** ** The tier of a built candidate *)

Section CandidateTier.

Variable clock : Clock.

Lemma build_candidate_maturity (q : string) (it : RawItem) :
  exists m, Scores (build_candidate clock q it) !! "Maturity" = Some m /\ in_0_5 m.
Proof.
  eexists. split.
  - unfold build_candidate. cbn [Scores].
    rewrite !lookup_insert_ne by discriminate. apply lookup_insert_eq.
  - apply score_maturity_0_5.
Qed.

Lemma build_candidate_ai_value (q : string) (it : RawItem) :
  Scores (build_candidate clock q it) !! "AIValue"
  = Some (ai_value (AIInvolvement (build_candidate clock q it))).
Proof.
  unfold build_candidate. cbn [Scores AIInvolvement].
  rewrite !lookup_insert_ne by discriminate. apply lookup_insert_eq.
Qed.

Lemma infer_ai_involvement_cases (text : string) :
  infer_ai_involvement text = "core" \/
  infer_ai_involvement text = "assisted" \/
  infer_ai_involvement text = "none".
Proof.
  unfold infer_ai_involvement. cbv zeta.
  destruct (any_in AI_HINTS_CORE (lower text)); [now left|].
  destruct (any_in AI_HINTS_ASSISTED (lower text)); [right; now left|right; now right].
Qed.

End CandidateTier.

(** X11: a built candidate's AI involvement is core, assisted or none;
    its tier is the tier of its own scores; a candidate with no AI
    keyword is Assess or Hold and never Adopt or Trial; one with an AI
    keyword is Adopt from Maturity 4, Trial at Maturity 3, Assess at
    Maturity 2 and Hold below. *)
Theorem build_candidate_tier (clock : Clock) (q : string) (it : RawItem) :
  Classification (build_candidate clock q it)
    = classify (Scores (build_candidate clock q it)) /\
  exists m,
    Scores (build_candidate clock q it) !! "Maturity" = Some m /\
    (AIInvolvement (build_candidate clock q it) = "none" /\
       Classification (build_candidate clock q it)
         = (if (m >=? 2)%Z then "Assess" else "Hold")
     \/
     (AIInvolvement (build_candidate clock q it) = "core" \/
      AIInvolvement (build_candidate clock q it) = "assisted") /\
       Classification (build_candidate clock q it)
         = (if (m >=? 4)%Z then "Adopt"
            else if (m >=? 3)%Z then "Trial"
            else if (m >=? 2)%Z then "Assess" else "Hold")).
Proof.
  split; [reflexivity|].
  destruct (build_candidate_maturity clock q it) as (m & Hm & _).
  exists m. split; [exact Hm|].
  assert (Hc : Classification (build_candidate clock q it)
               = classify (Scores (build_candidate clock q it))) by reflexivity.
  rewrite Hc. unfold classify. rewrite Hm, build_candidate_ai_value. cbn [default].
  change (AIInvolvement (build_candidate clock q it))
    with (infer_ai_involvement
            (str_or (it_full_name it) (str_or (it_name it) "Unknown")
             +:+ " " +:+ str_or (it_description it) "")).
  destruct (infer_ai_involvement_cases
              (str_or (it_full_name it) (str_or (it_name it) "Unknown")
               +:+ " " +:+ str_or (it_description it) "")) as [H|[H|H]];
    rewrite H.
  - right. split; [now left|].
    change (ai_value "core" >=? 3)%Z with true. now rewrite !andb_true_r.
  - right. split; [now right|].
    change (ai_value "assisted" >=? 3)%Z with true. now rewrite !andb_true_r.
  - left. split; [reflexivity|].
    change (ai_value "none" >=? 3)%Z with false. now rewrite !andb_false_r.
Qed.

Example candidate_without_ai_keyword :
  Classification (build_candidate sample_clock "q"
    {| it_name := Some "gazebo-sim"; it_full_name := Some "acme/gazebo-sim";
       it_html_url := Some "https://example.org/g"; it_homepage := None;
       it_description := Some "Robotics Gazebo Simulation";
       it_created_at := Some "2018-01-01T00:00:00Z";
       it_pushed_at := Some "2024-01-01T00:00:00Z";
       it_stargazers_count := Some 1200%Z; it_forks_count := Some 600%Z;
       it_open_issues_count := Some 10%Z; it_owner_login := Some "acme" |}) = "Assess".
Proof. vm_compute. reflexivity. Qed.

(** ** Discovery: failures, the cap, and what comes out *)

Section ScoutFacts.

Variable clock : Clock.

(** With room below the cap, the inner loop appends the candidates of as
    many items as fit. *)
Lemma collect_items_firstn (q : string) (items : list RawItem)
    (candidates : list ToolRecord) (max_results : Z) :
  (Z.of_nat (List.length candidates) < max_results * 3)%Z ->
  collect_items clock q items candidates max_results =
  candidates ++ map (build_candidate clock q)
    (firstn (Z.to_nat (max_results * 3) - List.length candidates) items).
Proof.
  revert candidates. induction items as [|it rest IH]; simpl; intros candidates Hlt.
  - now rewrite firstn_nil, app_nil_r.
  - unfold cap_reached. rewrite Z.geb_leb.
    destruct (Z.leb_spec (max_results * 3)
                (Z.of_nat (List.length (candidates ++ [build_candidate clock q it]))))
      as [Hge|Hlt'].
    + rewrite length_app in Hge. simpl in Hge.
      replace (Z.to_nat (max_results * 3) - List.length candidates)%nat with 1%nat by lia.
      reflexivity.
    + rewrite IH by assumption. rewrite length_app in *. simpl in *.
      replace (Z.to_nat (max_results * 3) - List.length candidates)%nat
        with (S (Z.to_nat (max_results * 3) - (List.length candidates + 1)))%nat by lia.
      simpl. now rewrite <- app_assoc.
Qed.

(** The dedup loop keeps [uniq] free of repeated keys. *)
Lemma dedup_loop_NoDup (candidates : list ToolRecord) (seen : gset string)
    (uniq : list ToolRecord) (max_results : Z) :
  NoDup (map record_key uniq) ->
  (forall k, In k (map record_key uniq) -> k ∈ seen) ->
  NoDup (map record_key (dedup_loop candidates seen uniq max_results)).
Proof.
  revert seen uniq. induction candidates as [|c rest IH]; simpl; intros seen uniq Hnd Hseen.
  - exact Hnd.
  - destruct (decide (record_key c ∈ seen)) as [Hc|Hc]; [now apply IH|].
    assert (Hnd' : NoDup (map record_key (uniq ++ [c]))).
    { rewrite map_app. simpl. apply NoDup_app. split; [exact Hnd|]. split.
      - intros k Hk Hk'. apply list_elem_of_singleton in Hk'. subst k.
        apply Hc, Hseen. now apply list_elem_of_In.
      - apply NoDup_singleton. }
    destruct (Z.of_nat (List.length (uniq ++ [c])) >=? max_results)%Z; [exact Hnd'|].
    apply IH; [exact Hnd'|].
    intros k Hk. rewrite map_app, in_app_iff in Hk. simpl in Hk.
    apply elem_of_union. destruct Hk as [Hk|[<-|[]]].
    + right. now apply Hseen.
    + left. now apply elem_of_singleton.
Qed.

(** The loop stops at the bound, or one record after it when the bound
    was passed before. *)
Lemma dedup_loop_length (candidates : list ToolRecord) (seen : gset string)
    (uniq : list ToolRecord) (max_results : Z) :
  (Z.of_nat (List.length (dedup_loop candidates seen uniq max_results))
     <= Z.max (Z.of_nat (List.length uniq) + 1) max_results)%Z.
Proof.
  revert seen uniq. induction candidates as [|c rest IH]; simpl; intros seen uniq.
  - lia.
  - destruct (decide (record_key c ∈ seen)); [apply IH|].
    rewrite Z.geb_leb.
    destruct (Z.leb_spec max_results (Z.of_nat (List.length (uniq ++ [c])))) as [Hge|Hlt].
    + rewrite length_app. simpl. lia.
    + specialize (IH ({[ (record_key c) ]} ∪ seen) (uniq ++ [c])).
      rewrite length_app in *. simpl in *. lia.
Qed.

End ScoutFacts.

(** X12: the first query is always sent, so its failure fails discovery
    with the same message, whatever the bound is; and once the first
    answer alone fills the cap of [3 * max_results] candidates, no other
    query is sent: the result is made of the first [3 * max_results]
    items of that answer, whatever the other searches would do. *)
Theorem scout_github_failures_and_cap :
  (forall clock search max_results e,
     search "embedded rtos tool" = Raise e ->
     scout_github clock search max_results = Raise e) /\
  (forall clock search max_results items,
     (1 <= max_results)%Z ->
     search "embedded rtos tool" = Ok items ->
     (3 * max_results <= Z.of_nat (List.length items))%Z ->
     scout_github clock search max_results =
     Ok (batch_dedup
           (map (build_candidate clock "embedded rtos tool")
                (firstn (Z.to_nat (3 * max_results)) items))
           max_results)).
Proof.
  split.
  - intros clock search max_results e He. unfold scout_github. simpl. now rewrite He.
  - intros clock search max_results items Hmax Hs Hlen.
    unfold scout_github. simpl. rewrite Hs. simpl.
    rewrite collect_items_firstn by (simpl; lia). simpl. rewrite Nat.sub_0_r.
    replace (max_results * 3)%Z with (3 * max_results)%Z by lia.
    unfold cap_reached. rewrite length_map, length_firstn.
    replace (Z.of_nat (Z.to_nat (3 * max_results) `min` List.length items)
               >=? max_results * 3)%Z with true; [reflexivity|].
    symmetry. rewrite Z.geb_leb. apply Z.leb_le. lia.
Qed.

(** The first query is answered with three items, every other query
    raises. *)
Definition search_first_only (q : string) : result (list RawItem) :=
  if String.eqb q "embedded rtos tool"
  then Ok [sample_item "b-tool" "https://example.org/b";
           sample_item "a-tool" "https://example.org/a";
           sample_item "B-Tool" "https://example.org/b2"]
  else Raise "HTTP Error 403: rate limit exceeded".

(** X12 with the cap filled by the first answer although every later
    search would raise, and with the search provider down. *)
Lemma scout_github_failures_and_cap_witness :
  scout_github sample_clock search_first_only 1 =
  Ok (batch_dedup
        (map (build_candidate sample_clock "embedded rtos tool")
             (firstn 3 [sample_item "b-tool" "https://example.org/b";
                        sample_item "a-tool" "https://example.org/a";
                        sample_item "B-Tool" "https://example.org/b2"]))
        1) /\
  scout_github sample_clock search_down 60
  = Raise "HTTP Error 403: rate limit exceeded".
Proof.
  split; [|exact (proj1 scout_github_failures_and_cap sample_clock search_down 60%Z
                    "HTTP Error 403: rate limit exceeded" eq_refl)].
  apply (proj2 scout_github_failures_and_cap
           sample_clock search_first_only 1%Z
           [sample_item "b-tool" "https://example.org/b";
            sample_item "a-tool" "https://example.org/a";
            sample_item "B-Tool" "https://example.org/b2"]).
  - lia.
  - reflexivity.
  - simpl. lia.
Defined.

(** X13: whatever [max_results] is, the records discovery returns are in
    the order of their lowercased names, no two with the same normalized
    name, every one named, and they are at most [max_results], or one
    when [max_results] is below one. *)
Theorem scout_github_output_shape (clock : Clock)
    (search : string -> result (list RawItem)) (max_results : Z) (recs : list ToolRecord) :
  scout_github clock search max_results = Ok recs ->
  Sorted name_le recs /\
  NoDup (map record_key recs) /\
  (forall c, In c recs -> name_truthy c = true) /\
  (Z.of_nat (List.length recs) <= Z.max 1 max_results)%Z.
Proof.
  intros Hs. pose proof Hs as Hs'. unfold scout_github in Hs'.
  destruct (collect_queries clock search build_queries [] max_results) as [cands|e];
    simpl in Hs'; [|discriminate Hs'].
  injection Hs' as <-. unfold batch_dedup. split; [apply sort_by_name_sorted|]. split; [|split].
  - apply NoDup_ListNoDup.
    apply (Permutation_NoDup
             (l := map record_key (dedup_loop cands ∅ [] max_results))).
    + apply Permutation_map, sort_by_name_perm.
    + apply NoDup_ListNoDup. apply dedup_loop_NoDup; [constructor|intros k []].
  - intros c Hc.
    destruct (scout_github_built clock search max_results _ c Hs Hc) as (q & it & ->).
    apply build_candidate_name.
  - rewrite sort_by_name_length.
    pose proof (dedup_loop_length cands ∅ [] max_results) as H. simpl in H. lia.
Qed.

(** X13 on a run with one item per query. *)
Lemma scout_github_output_shape_witness :
  (Z.of_nat (List.length [build_candidate sample_clock "embedded rtos tool"
                            (sample_item "zeta" "https://example.org/zeta")])
     <= Z.max 1 60)%Z.
Proof.
  refine (proj2 (proj2 (proj2
    (scout_github_output_shape sample_clock search_one 60%Z _ _)))).
  vm_compute. reflexivity.
Defined.

(** ** Whole runs *)

Section RunFacts.

Variable clock : Clock.
Variable search : string -> result (list RawItem).
Variable probe : string -> ProbeResult.
Variable sha : option string.

(** What was saved is what is loaded. *)
Lemma records_of_objects (l : list ToolRecord) :
  records_of (map EntryObject l) = Ok l.
Proof. induction l as [|r l IH]; simpl; [reflexivity|]. now rewrite IH. Qed.

Lemma validate_links_length (tools : list ToolRecord) (broken : list BrokenLink) :
  (List.length (validate_links probe tools broken)
     <= List.length broken + List.length tools)%nat.
Proof.
  revert broken. induction tools as [|t rest IH]; simpl; intros broken; [lia|].
  destruct (EvidenceLinks t) as [|link links].
  - specialize (IH broken). lia.
  - destruct (http_head_ok probe link) as [[|] info].
    + specialize (IH broken). lia.
    + specialize (IH (broken ++ [{| bl_tool := ToolName t; bl_link := link;
                                    bl_info := info |}])).
      rewrite length_app in IH. simpl in IH. lia.
Qed.

(** A pipeline that returned went through discovery and merge. *)
Lemma run_pipeline_inv (max_results : Z) (existing : list CatalogEntry)
    (discovered : list ToolRecord) (m : list ToolRecord * Z * list ToolRecord)
    (broken : list BrokenLink) :
  run_pipeline clock search probe max_results existing = Ok (discovered, m, broken) ->
  scout_github clock search max_results = Ok discovered /\
  (exists recs, records_of existing = Ok recs /\ m = merge_tools recs discovered) /\
  broken = validate_links probe (firstn 80 (merged_of m)) [].
Proof.
  unfold run_pipeline, merge_loaded.
  destruct (scout_github clock search max_results) as [d|e]; simpl; [|discriminate].
  destruct (records_of existing) as [recs|e]; simpl; [|discriminate].
  intros H. injection H as <- <- <-. split; [reflexivity|]. split; [|reflexivity].
  now exists recs.
Qed.

Lemma main_ok (max_results : Z) (st : Store)
    (discovered : list ToolRecord) (m : list ToolRecord * Z * list ToolRecord)
    (broken : list BrokenLink) :
  readable st ->
  run_pipeline clock search probe max_results (load_existing st)
    = Ok (discovered, m, broken) ->
  store (main clock search probe sha max_results st) =
    {| tools_json := FileList (map EntryObject (merged_of m));
       meta_json := Some {| lastRunUtc := now_utc_iso clock; lastRunCommit := sha;
                            toolsCount := Z.of_nat (List.length (merged_of m)) |};
       signals_json := Some {| generated_at_utc := now_utc_iso clock;
                               signals := map new_tool_signal
                                            (firstn 50 (inserted_items_of m));
                               broken_links := broken |} |} /\
  exit_code (main clock search probe sha max_results st) = 0%Z.
Proof.
  intros Hread. rewrite (main_readable clock search probe sha max_results st Hread).
  unfold main_try. cbv zeta. intros ->. now split.
Qed.

End RunFacts.

(** X14: a run that returns 0 leaves three documents that agree: the
    catalog is in strict order of the lowercased names with every record
    named; the metadata count is the number of its records; the signals
    are NEW_TOOL entries, at most 50, each for a record of the catalog
    and with its first evidence link only; and the broken links are at
    most 80 and no more than the records. *)
Theorem main_success_documents (clock : Clock)
    (search : string -> result (list RawItem)) (probe : string -> ProbeResult)
    (sha : option string) (max_results : Z) (st : Store) :
  exit_code (main clock search probe sha max_results st) = 0%Z ->
  exists catalog meta doc,
    store (main clock search probe sha max_results st)
      = {| tools_json := FileList (map EntryObject catalog);
           meta_json := Some meta; signals_json := Some doc |} /\
    Sorted name_lt catalog /\
    (forall r, In r catalog -> name_truthy r = true) /\
    toolsCount meta = Z.of_nat (List.length catalog) /\
    (List.length (signals doc) <= 50)%nat /\
    (forall s, In s (signals doc) ->
       exists x, In x catalog /\
         s = NEW_TOOL (ToolName x) (VendorOrganisation x) (firstn 1 (EvidenceLinks x))) /\
    (List.length (broken_links doc) <= Nat.min 80 (List.length catalog))%nat.
Proof.
  intros H0.
  destruct (main_returned_0 clock search probe sha max_results st H0)
    as (Hread & d & m & b & Hrun).
  destruct (main_ok clock search probe sha max_results st d m b Hread Hrun) as [Hstore _].
  destruct (run_pipeline_inv clock search probe _ _ _ _ _ Hrun)
    as (Hs & (recs & Hrecs & ->) & ->).
  destruct (merge_tools_in_order recs d) as (Hnamed & Hnd & Hsorted).
  eexists _, _, _. split; [exact Hstore|]. cbn [toolsCount signals broken_links].
  split; [|split; [exact Hnamed|split; [reflexivity|split; [|split]]]].
  - apply sorted_distinct_strict; [exact Hsorted|].
    now apply distinct_keys_distinct_names.
  - rewrite length_map, length_firstn. apply Nat.le_min_l.
  - intros s Hin. apply in_map_iff in Hin as (x & <- & Hx).
    exists x. split; [|reflexivity].
    assert (Hx' : In x (inserted_items_of (merge_tools recs d))).
    { rewrite <- (firstn_skipn 50). apply in_or_app. now left. }
    rewrite merge_tools_shape in *. unfold inserted_items_of, merged_of in *. simpl in *.
    apply sort_by_name_In. apply in_or_app. now right.
  - pose proof (validate_links_length probe
                  (firstn 80 (merged_of (merge_tools recs d))) []) as Hl.
    rewrite length_firstn in Hl. cbn [List.length] in Hl. lia.
Qed.

(** X14 on a first run with every probe failing. *)
Lemma main_success_documents_witness :
  exists catalog meta doc,
    store (main sample_clock search_one probe_down None 60 empty_store)
      = {| tools_json := FileList (map EntryObject catalog);
           meta_json := Some meta; signals_json := Some doc |} /\
    toolsCount meta = Z.of_nat (List.length catalog).
Proof.
  destruct (main_success_documents sample_clock search_one probe_down None 60%Z
              empty_store) as (c & me & doc & Hst & _ & _ & Hc & _).
  - vm_compute. reflexivity.
  - exists c, me, doc. now split.
Defined.

(** *** The clock does not decide which records are discovered *)

(** Two records with the same name field. *)
Definition same_name (a b : ToolRecord) : Prop := ToolName a = ToolName b.

Section ClockIndependence.

Variable clock1 clock2 : Clock.
Variable search : string -> result (list RawItem).

Lemma same_name_keys (a b : ToolRecord) :
  same_name a b -> record_key a = record_key b /\ sort_key a = sort_key b.
Proof. unfold same_name, record_key, sort_key, get_name. now intros ->. Qed.

Lemma build_candidate_same_name (q : string) (it : RawItem) :
  same_name (build_candidate clock1 q it) (build_candidate clock2 q it).
Proof. reflexivity. Qed.

Lemma insert_by_name_same (x x' : ToolRecord) (l l' : list ToolRecord) :
  same_name x x' -> Forall2 same_name l l' ->
  Forall2 same_name (insert_by_name x l) (insert_by_name x' l').
Proof.
  intros Hx Hl. induction Hl as [|y y' l l' Hy Hl IH]; simpl.
  - now repeat constructor.
  - rewrite (proj2 (same_name_keys _ _ Hx)), (proj2 (same_name_keys _ _ Hy)).
    destruct (String.ltb (sort_key y') (sort_key x')); now repeat constructor.
Qed.

Lemma sort_by_name_same (l l' : list ToolRecord) :
  Forall2 same_name l l' -> Forall2 same_name (sort_by_name l) (sort_by_name l').
Proof.
  intros Hl. induction Hl as [|x x' l l' Hx Hl IH]; simpl; [constructor|].
  now apply insert_by_name_same.
Qed.

Lemma dedup_loop_same (cands cands' : list ToolRecord) (seen : gset string)
    (uniq uniq' : list ToolRecord) (max_results : Z) :
  Forall2 same_name cands cands' -> Forall2 same_name uniq uniq' ->
  Forall2 same_name (dedup_loop cands seen uniq max_results)
                    (dedup_loop cands' seen uniq' max_results).
Proof.
  intros Hc. revert seen uniq uniq'.
  induction Hc as [|c c' l l' Hcc Hl IH]; simpl; intros seen uniq uniq' Hu; [exact Hu|].
  rewrite (proj1 (same_name_keys _ _ Hcc)).
  destruct (decide (record_key c' ∈ seen)); [now apply IH|].
  assert (Hu' : Forall2 same_name (uniq ++ [c]) (uniq' ++ [c'])).
  { apply Forall2_app; [exact Hu|now repeat constructor]. }
  rewrite (Forall2_length _ _ _ Hu').
  destruct (Z.of_nat (List.length (uniq' ++ [c'])) >=? max_results)%Z; [exact Hu'|].
  now apply IH.
Qed.

Lemma collect_items_same (q : string) (items : list RawItem)
    (cands cands' : list ToolRecord) (max_results : Z) :
  Forall2 same_name cands cands' ->
  Forall2 same_name (collect_items clock1 q items cands max_results)
                    (collect_items clock2 q items cands' max_results).
Proof.
  revert cands cands'. induction items as [|it rest IH]; simpl; intros cands cands' Hc;
    [exact Hc|].
  assert (Hc' : Forall2 same_name (cands ++ [build_candidate clock1 q it])
                                  (cands' ++ [build_candidate clock2 q it])).
  { apply Forall2_app; [exact Hc|].
    constructor; [apply build_candidate_same_name|constructor]. }
  unfold cap_reached. rewrite (Forall2_length _ _ _ Hc').
  destruct (Z.of_nat (List.length (cands' ++ [build_candidate clock2 q it]))
              >=? max_results * 3)%Z; [exact Hc'|].
  now apply IH.
Qed.

Lemma collect_queries_same (queries : list string) (cands cands' r : list ToolRecord)
    (max_results : Z) :
  Forall2 same_name cands cands' ->
  collect_queries clock1 search queries cands max_results = Ok r ->
  exists r', collect_queries clock2 search queries cands' max_results = Ok r' /\
             Forall2 same_name r r'.
Proof.
  revert cands cands'. induction queries as [|q rest IH]; simpl; intros cands cands' Hc Hr.
  - injection Hr as <-. now exists cands'.
  - destruct (search q) as [items|e]; simpl in *; [|discriminate Hr].
    pose proof (collect_items_same q items cands cands' max_results Hc) as Hi.
    unfold cap_reached in *. rewrite <- (Forall2_length _ _ _ Hi).
    destruct (Z.of_nat (List.length (collect_items clock1 q items cands max_results))
                >=? max_results * 3)%Z.
    + injection Hr as <-. eauto.
    + now apply (IH _ _ Hi).
Qed.

Lemma scout_github_same (max_results : Z) (d : list ToolRecord) :
  scout_github clock1 search max_results = Ok d ->
  exists d', scout_github clock2 search max_results = Ok d' /\ Forall2 same_name d d'.
Proof.
  unfold scout_github.
  destruct (collect_queries clock1 search build_queries [] max_results) as [c|e] eqn:E;
    cbn [bind]; [|discriminate].
  intros H. injection H as <-.
  destruct (collect_queries_same build_queries [] [] c max_results ltac:(constructor) E)
    as (c' & Hc' & Hcc).
  rewrite Hc'. cbn [bind]. eexists. split; [reflexivity|]. unfold batch_dedup.
  apply sort_by_name_same, dedup_loop_same; [exact Hcc|constructor].
Qed.



End ClockIndependence.

(** The clock of a run one day after [sample_clock]. *)
Definition next_day_clock : Clock :=
  {| days_since := fun _ => 11%Z; years_since := fun _ => 6%Q;
     today_iso := "2024-01-02"; now_utc_iso := "2024-01-02T00:00:00Z" |}.



Section SecondRun.

Lemma same_name_keys_In (d d' : list ToolRecord) (c' : ToolRecord) :
  Forall2 same_name d d' -> In c' d' ->
  exists c, In c d /\ record_key c = record_key c'.
Proof.
  intros H. induction H as [|x x' l l' Hx Hl IH]; simpl; [contradiction|].
  intros [<-|Hin].
  - exists x. split; [now left|]. now apply same_name_keys.
  - destruct (IH Hin) as (c & Hc & Hk). exists c. split; [now right|exact Hk].
Qed.

(** After a merge, every non-empty key of the batch is in the catalog. *)
Lemma merge_tools_covers (existing new : list ToolRecord) (c : ToolRecord) :
  In c new -> has_key c = true ->
  In (record_key c) (map record_key (merged_of (merge_tools existing new))).
Proof.
  intros Hc Hk.
  apply (Permutation_in (l := map record_key
           (idx_values (build_index existing)
            ++ keep_first (existing_keys existing) (List.filter has_key new)))).
  - apply Permutation_map. rewrite merge_tools_shape. unfold merged_of. simpl.
    apply sort_by_name_perm.
  - rewrite map_app, in_app_iff.
    destruct (keep_first_covers (existing_keys existing) (List.filter has_key new) c)
      as [Hs|Hin].
    + apply List.filter_In. now split.
    + left. rewrite <- key_set_build_index in Hs. apply key_set_In in Hs.
      rewrite idx_ok_values_keys; [exact Hs|]. apply index_from_ok, idx_ok_nil.
    + now right.
Qed.

(** A catalog in order takes nothing from a batch whose keys it has. *)
Lemma merge_in_order_known (catalog batch : list ToolRecord) :
  catalog_in_order catalog ->
  (forall c, In c batch -> has_key c = true ->
     In (record_key c) (map record_key catalog)) ->
  merge_tools catalog batch = (catalog, 0%Z, []).
Proof.
  intros (Hnamed & Hnd & Hsorted) Hknown.
  rewrite merge_tools_unfold. unfold build_index.
  rewrite index_from_distinct by assumption. simpl.
  rewrite merge_loop_nothing_new.
  - simpl. unfold idx_values. rewrite map_map. simpl. rewrite map_id.
    now rewrite sort_by_name_id.
  - intros c Hc Hk. unfold idx_keys. rewrite map_map. simpl. now apply Hknown.
Qed.

End SecondRun.

(** X15: a later run on what a successful run saved, with the same
    answers from the search provider and the probes but any clock and
    commit, returns 0 again, leaves the catalog as it is, counts the same
    number of tools, reports no new tool, and lists the same broken
    links. *)
Theorem main_second_run_changes_nothing (clock1 clock2 : Clock)
    (search : string -> result (list RawItem)) (probe : string -> ProbeResult)
    (sha1 sha2 : option string) (max_results : Z) (st : Store) :
  exit_code (main clock1 search probe sha1 max_results st) = 0%Z ->
  exit_code (main clock2 search probe sha2 max_results
               (store (main clock1 search probe sha1 max_results st))) = 0%Z /\
  tools_json (store (main clock2 search probe sha2 max_results
                       (store (main clock1 search probe sha1 max_results st))))
    = tools_json (store (main clock1 search probe sha1 max_results st)) /\
  exists meta1 meta2 doc1 doc2,
    meta_json (store (main clock1 search probe sha1 max_results st)) = Some meta1 /\
    meta_json (store (main clock2 search probe sha2 max_results
                        (store (main clock1 search probe sha1 max_results st))))
      = Some meta2 /\
    toolsCount meta2 = toolsCount meta1 /\
    signals_json (store (main clock1 search probe sha1 max_results st)) = Some doc1 /\
    signals_json (store (main clock2 search probe sha2 max_results
                           (store (main clock1 search probe sha1 max_results st))))
      = Some doc2 /\
    signals doc2 = [] /\
    broken_links doc2 = broken_links doc1.
Proof.
  intros H0.
  destruct (main_returned_0 clock1 search probe sha1 max_results st H0)
    as (Hread & d & m & b & Hrun).
  destruct (main_ok clock1 search probe sha1 max_results st d m b Hread Hrun) as [Hstore _].
  destruct (run_pipeline_inv clock1 search probe _ _ _ _ _ Hrun)
    as (Hs & (recs & Hrecs & Hm) & Hb).
  destruct (scout_github_same clock1 clock2 search max_results d Hs) as (d' & Hs' & Hdd).
  assert (Hmerge : merge_tools (merged_of m) d' = (merged_of m, 0%Z, [])).
  { rewrite Hm. apply merge_in_order_known; [apply merge_tools_in_order|].
    intros c' Hc' Hk'.
    destruct (same_name_keys_In d d' c' Hdd Hc') as (c & Hc & Hkey).
    rewrite <- Hkey. apply merge_tools_covers; [exact Hc|].
    unfold has_key in *. now rewrite Hkey. }
  assert (Hrun2 : run_pipeline clock2 search probe max_results
                    (load_existing (store (main clock1 search probe sha1 max_results st)))
                  = Ok (d', (merged_of m, 0%Z, []), b)).
  { rewrite Hstore. unfold load_existing. cbn [tools_json].
    unfold run_pipeline, merge_loaded. rewrite Hs'. simpl.
    rewrite records_of_objects. simpl.
    rewrite Hmerge. unfold merged_of at 2. simpl. now rewrite Hb. }
  assert (Hread2 : readable (store (main clock1 search probe sha1 max_results st))).
  { rewrite Hstore. intros err. discriminate. }
  destruct (main_ok clock2 search probe sha2 max_results _ d' _ b Hread2 Hrun2)
    as [Hstore2 Hexit2].
  split; [exact Hexit2|]. rewrite Hstore2, Hstore. cbn.
  split; [reflexivity|].
  eexists _, _, _, _. repeat (split; [reflexivity|]). reflexivity.
Qed.

(** X15 on the run with one item per query, the second run a day
    later. *)
Lemma main_second_run_changes_nothing_witness :
  tools_json (store (main next_day_clock search_one probe_down (Some "abc") 60
                       (store (main sample_clock search_one probe_down None 60 empty_store))))
  = tools_json (store (main sample_clock search_one probe_down None 60 empty_store)).
Proof.
  refine (proj1 (proj2 (main_second_run_changes_nothing
            sample_clock next_day_clock
            search_one probe_down None (Some "abc") 60%Z empty_store _))).
  vm_compute. reflexivity.
Defined.

(** ** The first run *)

Section FirstRun.

Lemma keep_first_distinct (seen : gset string) (l : list ToolRecord) :
  NoDup (map record_key l) ->
  (forall c, In c l -> record_key c ∉ seen) ->
  keep_first seen l = l.
Proof.
  revert seen. induction l as [|c rest IH]; simpl; intros seen Hnd Hout; [reflexivity|].
  apply NoDup_cons in Hnd as [Hc Hnd].
  destruct (decide (record_key c ∈ seen)) as [Hin|_].
  - exfalso. apply (Hout c); [now left|exact Hin].
  - f_equal. apply IH; [exact Hnd|].
    intros d Hd Hs. apply elem_of_union in Hs as [Hs|Hs].
    + apply elem_of_singleton in Hs. apply Hc. rewrite <- Hs.
      apply list_elem_of_In, in_map, Hd.
    + apply (Hout d); [now right|exact Hs].
Qed.

Lemma filter_keys_NoDup (f : ToolRecord -> bool) (l : list ToolRecord) :
  NoDup (map record_key l) -> NoDup (map record_key (List.filter f l)).
Proof.
  induction l as [|c rest IH]; simpl; intros Hnd; [constructor|].
  apply NoDup_cons in Hnd as [Hc Hnd]. destruct (f c); simpl; [|now apply IH].
  apply NoDup_cons. split; [|now apply IH].
  intros Hin. apply Hc. apply list_elem_of_In in Hin. apply list_elem_of_In.
  apply in_map_iff in Hin as (d & Hk & Hd). apply List.filter_In in Hd as [Hd _].
  rewrite <- Hk. now apply in_map.
Qed.

(** Discovery returns no normalized name twice. *)
Lemma scout_github_keys_distinct (clock : Clock)
    (search : string -> result (list RawItem)) (max_results : Z) (recs : list ToolRecord) :
  scout_github clock search max_results = Ok recs -> NoDup (map record_key recs).
Proof.
  unfold scout_github.
  destruct (collect_queries clock search build_queries [] max_results) as [cands|e];
    simpl; [|discriminate].
  intros H. injection H as <-. unfold batch_dedup. apply NoDup_ListNoDup.
  apply (Permutation_NoDup (l := map record_key (dedup_loop cands ∅ [] max_results))).
  - apply Permutation_map, sort_by_name_perm.
  - apply NoDup_ListNoDup. apply dedup_loop_NoDup; [constructor|intros k []].
Qed.

End FirstRun.

(** X16: a catalog file that is absent, holds no list, or holds the
    empty list counts as the empty catalog: when discovery succeeds the
    run returns 0, the catalog it writes is made of the discovered
    records whose normalized name is not empty, and these are the records
    reported as new (the first 50 of them). *)
Theorem main_first_run (clock : Clock)
    (search : string -> result (list RawItem)) (probe : string -> ProbeResult)
    (sha : option string) (max_results : Z) (st : Store) (discovered : list ToolRecord) :
  tools_json st = FileAbsent \/ tools_json st = FileNotList \/ tools_json st = FileList [] ->
  scout_github clock search max_results = Ok discovered ->
  exit_code (main clock search probe sha max_results st) = 0%Z /\
  exists catalog doc,
    tools_json (store (main clock search probe sha max_results st))
      = FileList (map EntryObject catalog) /\
    Permutation catalog (List.filter has_key discovered) /\
    signals_json (store (main clock search probe sha max_results st)) = Some doc /\
    signals doc = map new_tool_signal (firstn 50 (List.filter has_key discovered)).
Proof.
  intros Hfile Hs.
  assert (Hload : load_existing st = []).
  { unfold load_existing. destruct Hfile as [->|[->| ->] ]; reflexivity. }
  assert (Hkeep : keep_first (existing_keys []) (List.filter has_key discovered)
                  = List.filter has_key discovered).
  { apply keep_first_distinct.
    - apply filter_keys_NoDup. exact (scout_github_keys_distinct _ _ _ _ Hs).
    - intros c _. unfold existing_keys. simpl. apply not_elem_of_empty. }
  assert (Hrun : run_pipeline clock search probe max_results (load_existing st)
                 = Ok (discovered, merge_tools [] discovered,
                       validate_links probe
                         (firstn 80 (merged_of (merge_tools [] discovered))) [])).
  { unfold run_pipeline, merge_loaded. rewrite Hs, Hload. reflexivity. }
  assert (Hread : readable st).
  { intros err. destruct Hfile as [->|[->| ->] ]; discriminate. }
  destruct (main_ok clock search probe sha max_results st _ _ _ Hread Hrun)
    as [Hstore Hexit].
  split; [exact Hexit|]. rewrite Hstore. cbn [tools_json signals_json].
  eexists _, _. split; [reflexivity|]. cbn [signals].
  rewrite merge_tools_shape, Hkeep. unfold merged_of, inserted_items_of. simpl.
  split; [|split; reflexivity].
  symmetry. apply sort_by_name_perm.
Qed.

(** X16 on a store without catalog file. *)
Lemma main_first_run_witness :
  exit_code (main sample_clock search_one probe_down None 60 empty_store) = 0%Z.
Proof.
  refine (proj1 (main_first_run sample_clock search_one probe_down None 60%Z
                   empty_store _ _ _)).
  - now left.
  - vm_compute. reflexivity.
Defined.

(** ** Staleness and age from a timestamp *)

(** [days_since] and [years_since] read the clock and parse the
    timestamp; what they compute from there is embedded here.
    [elapsed iso] is the whole number of seconds from the timestamp to
    now (the floor of [total_seconds()], negative for a timestamp in the
    future), or [None] when parsing or subtracting raises.  The age is the
    rational that [days / 365.25] denotes; the float rounds it without
    moving it across 5. *)
Section Timestamps.

Variable elapsed : string -> option Z.

Definition days_since_at (iso : string) : Z :=
  match elapsed iso with
  | Some s => Z.max 0 (s / 86400)
  | None => 99999
  end.

Definition years_since_at (iso : string) : Q :=
  match elapsed iso with
  | Some s =>
      let y := (4 * (s / 86400) # 1461)%Q in
      if Qle_bool 0 y then y else 0%Q
  | None => 0%Q
  end.

Definition clock_at (today now : string) : Clock :=
  {| days_since := days_since_at; years_since := years_since_at;
     today_iso := today; now_utc_iso := now |}.

End Timestamps.

(** X17: the staleness in days is never negative, is 0 for a push less
    than a day ago or in the future, and is 99999 when the timestamp
    cannot be read; the age of an unreadable timestamp is 0; and the age
    reaches 5 years exactly when 1827 whole days have passed. *)
Theorem staleness_and_age (elapsed : string -> option Z) (iso : string) :
  (0 <= days_since_at elapsed iso)%Z /\
  (forall s, elapsed iso = Some s -> (s < 86400)%Z -> days_since_at elapsed iso = 0%Z) /\
  (elapsed iso = None ->
     days_since_at elapsed iso = 99999%Z /\ years_since_at elapsed iso = 0%Q) /\
  (forall s, elapsed iso = Some s ->
     (age_ge_5 (years_since_at elapsed iso) = true <-> (1827 * 86400 <= s)%Z)).
Proof.
  unfold days_since_at, years_since_at. split; [|split; [|split]].
  - destruct (elapsed iso); lia.
  - intros s -> Hs.
    assert (s / 86400 <= 0)%Z; [|lia].
    destruct (Z_lt_le_dec s 0) as [Hneg|Hpos].
    + pose proof (Z.div_lt_upper_bound s 86400 0 ltac:(lia) ltac:(lia)). lia.
    + rewrite Z.div_small by lia. lia.
  - intros ->. now split.
  - intros s ->. cbv zeta.
    pose proof (Z.div_mod s 86400 ltac:(lia)) as Hdm.
    pose proof (Z.mod_pos_bound s 86400 ltac:(lia)) as Hmod.
    unfold age_ge_5.
    destruct (Qle_bool 0 (4 * (s / 86400) # 1461)) eqn:E.
    + unfold Qle_bool. simpl. rewrite Z.leb_le. lia.
    + unfold Qle_bool in *. simpl in *. apply Z.leb_gt in E.
      split; [discriminate|]. lia.
Qed.

(** X17 at a push ten minutes ahead of the clock and a creation 1827
    days ago. *)
Lemma staleness_and_age_witness :
  days_since_at (fun _ => Some (-600)%Z) "2024-01-01T00:10:00Z" = 0%Z /\
  age_ge_5 (years_since_at (fun _ => Some 157852800%Z) "2019-01-01T00:00:00Z") = true.
Proof.
  split.
  - apply (proj1 (proj2 (staleness_and_age (fun _ => Some (-600)%Z)
                           "2024-01-01T00:10:00Z")) (-600)%Z); [reflexivity|lia].
  - apply (proj2 (proj2 (proj2 (staleness_and_age (fun _ => Some 157852800%Z)
                                  "2019-01-01T00:00:00Z"))) 157852800%Z);
      [reflexivity|lia].
Defined.
